(** * PGVector: the pgvector vector store of mem0

    A shallow embedding of [mem0/vector_stores/pgvector.py].  The adapter
    talks to PostgreSQL through a pooled connection; the embedding keeps
    the adapter's own code (cursor acquisition, statement construction,
    result conversion) as state-and-exception passing functions, and gives
    the relational engine a small executable model that interprets exactly
    the statements the adapter issues. *)

From stdpp Require Import gmap strings list fin_maps pretty.

Open Scope Z_scope.

(** ** Python values *)

(** Scalars found in payload dicts and filter dicts. *)
Inductive pyval :=
| PyNone
| PyBool (b : bool)
| PyInt (z : Z)
| PyStr (s : string).

#[global] Instance pyval_eq_dec : EqDecision pyval.
Proof. solve_decision. Defined.

(** Python's [str(v)]. *)
Definition py_str (v : pyval) : string :=
  match v with
  | PyNone => "None"
  | PyBool true => "True"
  | PyBool false => "False"
  | PyInt z => pretty z
  | PyStr s => s
  end.

(** A payload dict: equality of dicts ignores insertion order. *)
Abbreviation pydict := (gmap string pyval).

(** A filter dict is iterated with [.items()], so its insertion order is
    kept. *)
Abbreviation filter_dict := (list (string * pyval)).

(** Exceptions.  [KeyboardInterrupt] derives from [BaseException] only, so
    an [except Exception] clause does not catch it. *)
Inductive exn :=
| TypeError (msg : string)
| IndexError (msg : string)
| DatabaseError (msg : string)
| KeyboardInterrupt.

Definition is_Exception (e : exn) : bool :=
  match e with
  | KeyboardInterrupt => false
  | _ => true
  end.

Inductive outcome (A : Type) :=
| Return (a : A)
| Raise (e : exn).
Arguments Return {A} a.
Arguments Raise {A} e.

(** [PSYCOPG_VERSION], fixed when the module is imported. *)
Inductive psycopg_version := V2 | V3.

(** ** The engine's parameters

    Vector components are PostgreSQL/Python floats; the adapter never
    computes with them.  The distance operator [<=>] and the order used by
    [ORDER BY] belong to the engine, as does the size report of
    [pg_size_pretty]. *)
Class Engine (float : Type) := {
  cosine_distance : list float → list float → float;
  float_le : float → float → bool;
  pg_size_pretty : nat → string;
}.


Module OutputData.
(** [class OutputData(BaseModel)]. *)
Record t (float : Type) := mk {
  id : option string;
  score : option float;
  payload : option pydict;
}.
Arguments mk {float} _ _ _.
Arguments id {float} _.
Arguments score {float} _.
Arguments payload {float} _.
End OutputData.

(** [self]: the attributes set by [__init__] that the methods read. *)
Record PGVector := {
  collection_name : string;
  use_diskann : bool;
  use_hnsw : bool;
  embedding_model_dims : Z;
}.

(** ** The relational engine

    The engine is outside the adapter; this is the part of its behaviour
    the adapter's statements rely on.  A table is found under the name
    the statement spells, and record identifiers are compared as text;
    the conversion of an identifier to the [uuid] type of its column and
    of a vector to [vector(n)] is added in [Typed] below.  [INSERT]
    writes its tuples one after the other, [LIMIT] takes a bigint that is
    not negative, and the predicates of a [WHERE] clause are read from the
    clause's text. *)
Section Model.
Context {float : Type} `{!Engine float}.

Record row := Row {
  row_id : string;
  row_vector : list float;
  row_payload : option pydict;   (* [None] is the JSON null *)
}.

Inductive index_method := diskann | hnsw.

Record table := Table {
  tbl_dims : Z;
  tbl_rows : list row;
  tbl_indexes : list (string * index_method);
}.

Record database := Database {
  tables : gmap string table;
  extensions : list string;
}.

(** Bound parameters ([%s] placeholders) and result columns. *)
Inductive param :=
| PStr (s : string)
| PInt (z : Z)
| PNone
| PVec (v : list float)
| PJson (p : option pydict).

Inductive sqlval :=
| VStr (s : string)
| VInt (z : Z)
| VFloat (f : float)
| VVec (v : list float)
| VJson (p : option pydict).

Abbreviation sqlrow := (list sqlval).

(** The statements of the adapter: one constructor per statement text,
    carrying what the f-string interpolates into it; [sql_text] below
    gives the text of each. *)
Inductive stmt :=
| CREATE_EXTENSION_vector
| CREATE_TABLE (name : string) (dims : Z)
| SELECT_pg_extension_vectorscale
| CREATE_INDEX (idx : string) (tbl : string) (m : index_method)
| INSERT (tbl : string) (values : string)
| SELECT_search (tbl : string) (filter_clause : string)
| DELETE (tbl : string)
| UPDATE_vector (tbl : string)
| UPDATE_payload (tbl : string)
| SELECT_get (tbl : string)
| SELECT_tables
| DROP_TABLE (tbl : string)
| SELECT_col_info (tbl : string)
| SELECT_list (tbl : string) (filter_clause : string).







(** [payload->>k]: the field as text, SQL NULL when missing or null. *)
Definition jsonb_text (v : pyval) : option string :=
  match v with
  | PyNone => None
  | PyBool true => Some "true"
  | PyBool false => Some "false"
  | PyInt z => Some (pretty z)
  | PyStr s => Some s
  end.

Definition payload_field_text (p : option pydict) (k : string) : option string :=
  m ← p; v ← m !! k; jsonb_text v.

(** [payload->>%s = %s AND ...] with its parameters bound. *)
Definition qualifies (conds : list (string * string)) (r : row) : bool :=
  forallb (λ kv, bool_decide (payload_field_text (row_payload r) kv.1 = Some kv.2)) conds.

(** The (key, value) parameters of a filter clause, in placeholder order. *)
Fixpoint bind_filters (ps : list param) : option (list (string * string)) :=
  match ps with
  | [] => Some []
  | PStr k :: PStr v :: ps' => cons (k, v) <$> bind_filters ps'
  | _ => None
  end.

Fixpoint unsnoc {A} (l : list A) : option (list A * A) :=
  match l with
  | [] => None
  | [x] => Some ([], x)
  | x :: l' => (λ p, (x :: p.1, p.2)) <$> unsnoc l'
  end.

Definition undefined_table {A} (tbl : string) : outcome A :=
  Raise (DatabaseError ("relation " +:+ tbl +:+ " does not exist")).

Definition bad_parameters {A} : outcome A :=
  Raise (DatabaseError "the query parameters do not match its placeholders").

(** [LIMIT %s]: NULL means no limit; the count is a bigint, and a negative
    count is an error. *)
Definition apply_limit {A} (lim : param) (l : list A) : outcome (list A) :=
  match lim with
  | PNone => Return l
  | PInt n =>
      if n <? 0 then Raise (DatabaseError "LIMIT must not be negative")
      else if 2 ^ 63 <=? n then Raise (DatabaseError "bigint out of range")
      else Return (take (Z.to_nat n) l)
  | _ => Raise (DatabaseError "argument of LIMIT must be an integer")
  end.

(** The [WHERE] fragment as the engine reads it: nothing, or [WHERE]
    followed by one or more predicates [payload->>%s = %s] joined with
    [AND]; the result is the number of predicates. *)
Fixpoint strip_prefix (p s : string) : option string :=
  match p, s with
  | EmptyString, _ => Some s
  | String a p', String b s' => if Ascii.eqb a b then strip_prefix p' s' else None
  | String _ _, EmptyString => None
  end.

Fixpoint parse_predicates (fuel : nat) (s : string) : option nat :=
  match fuel with
  | O => None
  | S fuel' =>
      match strip_prefix "payload->>%s = %s" s with
      | None => None
      | Some EmptyString => Some 1%nat
      | Some rest =>
          match strip_prefix " AND " rest with
          | None => None
          | Some rest' => S <$> parse_predicates fuel' rest'
          end
      end
  end.

Definition parse_where (clause : string) : option nat :=
  match clause with
  | EmptyString => Some 0%nat
  | _ =>
      match strip_prefix "WHERE " clause with
      | None => None
      | Some s => parse_predicates (String.length s) s
      end
  end.

Definition syntax_error {A} : outcome A :=
  Raise (DatabaseError "syntax error").

(** The filter parameters bound to a clause of [n] predicates. *)
Definition bind_clause (clause : string) (fps : list param)
  : outcome (list (string * string)) :=
  match parse_where clause with
  | None => syntax_error
  | Some n =>
      match bind_filters fps with
      | Some conds => if bool_decide (length conds = n) then Return conds else bad_parameters
      | None => bad_parameters
      end
  end.

(** [ORDER BY distance]: a stable insertion sort on the distance. *)
Fixpoint insert_by {A} (key : A → float) (x : A) (l : list A) : list A :=
  match l with
  | [] => [x]
  | y :: l' => if float_le (key x) (key y) then x :: l else y :: insert_by key x l'
  end.

Definition order_by {A} (key : A → float) (l : list A) : list A :=
  foldr (insert_by key) [] l.

Definition set_rows (t : table) (rs : list row) : table :=
  Table (tbl_dims t) rs (tbl_indexes t).

Definition store (db : database) (tbl : string) (t : table) : database :=
  Database (<[tbl := t]> (tables db)) (extensions db).

(** One tuple of an [INSERT]; the primary key rejects a duplicate id. *)
Definition insert_tuple (tbl : string) (ps : list param) (db : database)
  : outcome database :=
  match tables db !! tbl with
  | None => undefined_table tbl
  | Some t =>
      match ps with
      | [PStr i; PVec v; PJson p] =>
          if bool_decide (i ∈ row_id <$> tbl_rows t)
          then Raise (DatabaseError "duplicate key value violates unique constraint")
          else Return (store db tbl (set_rows t (tbl_rows t ++ [Row i v p])))
      | _ => bad_parameters
      end
  end.

(** Tuples written one after the other: what was written before a tuple
    is rejected stays in the transaction, next to the error. *)
Fixpoint insert_tuples (tbl : string) (data : list (list param)) (db : database)
  : option exn * database :=
  match data with
  | [] => (None, db)
  | ps :: data' =>
      match insert_tuple tbl ps db with
      | Return db' => insert_tuples tbl data' db'
      | Raise e => (Some e, db)
      end
  end.

Definition select_row (r : row) : sqlrow :=
  [VStr (row_id r); VVec (row_vector r); VJson (row_payload r)].

Definition distance_row (q : list float) (r : row) : float * row :=
  (cosine_distance (row_vector r) q, r).

Definition search_row (dr : float * row) : sqlrow :=
  [VStr (row_id dr.2); VFloat dr.1; VJson (row_payload dr.2)].

(** [cur.execute(stmt, params)]: the new database and the result set. *)
Definition exec (s : stmt) (ps : list param) (db : database)
  : outcome (database * list sqlrow) :=
  match s with
  | CREATE_EXTENSION_vector =>
      Return (Database (tables db)
                (if bool_decide ("vector" ∈ extensions db) then extensions db
                 else extensions db ++ ["vector"]), [])
  | CREATE_TABLE name dims =>
      match tables db !! name with
      | Some _ => Return (db, [])
      | None => Return (store db name (Table dims [] []), [])
      end
  | SELECT_pg_extension_vectorscale =>
      Return (db, if bool_decide ("vectorscale" ∈ extensions db)
                  then [[VStr "vectorscale"]] else [])
  | CREATE_INDEX idx tbl m =>
      match tables db !! tbl with
      | None => undefined_table tbl
      | Some t =>
          if bool_decide (idx ∈ (tbl_indexes t).*1) then Return (db, [])
          else Return (store db tbl
                         (Table (tbl_dims t) (tbl_rows t) (tbl_indexes t ++ [(idx, m)])), [])
      end
  | INSERT _ _ => bad_parameters
  | SELECT_search tbl clause =>
      match tables db !! tbl, ps with
      | None, _ => undefined_table tbl
      | Some t, PVec q :: ps' =>
          match unsnoc ps' with
          | Some (fps, lim) =>
              match bind_clause clause fps with
              | Return conds =>
                  match apply_limit lim
                          (order_by fst (distance_row q <$> filter (λ r, qualifies conds r) (tbl_rows t))) with
                  | Return rs => Return (db, search_row <$> rs)
                  | Raise e => Raise e
                  end
              | Raise e => Raise e
              end
          | None => bad_parameters
          end
      | Some _, _ => bad_parameters
      end
  | DELETE tbl =>
      match tables db !! tbl, ps with
      | None, _ => undefined_table tbl
      | Some t, [PStr i] =>
          Return (store db tbl (set_rows t (filter (λ r, row_id r ≠ i) (tbl_rows t))), [])
      | Some _, _ => bad_parameters
      end
  | UPDATE_vector tbl =>
      match tables db !! tbl, ps with
      | None, _ => undefined_table tbl
      | Some t, [PVec v; PStr i] =>
          Return (store db tbl
                    (set_rows t ((λ r, if bool_decide (row_id r = i)
                                       then Row (row_id r) v (row_payload r) else r)
                                 <$> tbl_rows t)), [])
      | Some _, _ => bad_parameters
      end
  | UPDATE_payload tbl =>
      match tables db !! tbl, ps with
      | None, _ => undefined_table tbl
      | Some t, [PJson p; PStr i] =>
          Return (store db tbl
                    (set_rows t ((λ r, if bool_decide (row_id r = i)
                                       then Row (row_id r) (row_vector r) p else r)
                                 <$> tbl_rows t)), [])
      | Some _, _ => bad_parameters
      end
  | SELECT_get tbl =>
      match tables db !! tbl, ps with
      | None, _ => undefined_table tbl
      | Some t, [PStr i] =>
          Return (db, select_row <$> filter (λ r, row_id r = i) (tbl_rows t))
      | Some _, _ => bad_parameters
      end
  | SELECT_tables =>
      Return (db, (λ kv, [VStr kv.1]) <$> map_to_list (tables db))
  | DROP_TABLE tbl =>
      Return (Database (delete tbl (tables db)) (extensions db), [])
  | SELECT_col_info tbl =>
      match tables db !! tbl, ps with
      | None, _ => undefined_table tbl
      | Some t, [PStr name] =>
          Return (db, if bool_decide (name ∈ (map_to_list (tables db)).*1)
                      then [[VStr name; VInt (Z.of_nat (length (tbl_rows t)));
                             VStr (pg_size_pretty (length (tbl_rows t)))]]
                      else [])
      | Some _, _ => bad_parameters
      end
  | SELECT_list tbl clause =>
      match tables db !! tbl with
      | None => undefined_table tbl
      | Some t =>
          match unsnoc ps with
          | Some (fps, lim) =>
              match bind_clause clause fps with
              | Return conds =>
                  match apply_limit lim (filter (λ r, qualifies conds r) (tbl_rows t)) with
                  | Return rs => Return (db, select_row <$> rs)
                  | Raise e => Raise e
                  end
              | Raise e => Raise e
              end
          | None => bad_parameters
          end
      end
  end.

(** [cur.executemany(stmt, data)] of psycopg3: the statement once per
    tuple of [data], in order, and nothing at all for an empty [data]. *)
Definition exec_many (s : stmt) (data : list (list param)) (db : database)
  : option exn * database :=
  match s with
  | INSERT tbl _ => insert_tuples tbl data db
  | _ => (Some (DatabaseError "the query parameters do not match its placeholders"), db)
  end.

(** One [INSERT ... VALUES] statement with the tuples of a page, as
    psycopg2's [execute_values] sends it: all of the page or none of it. *)
Definition exec_values (s : stmt) (page : list (list param)) (db : database)
  : outcome database :=
  match s with
  | INSERT tbl _ =>
      match insert_tuples tbl page db with
      | (None, db') => Return db'
      | (Some e, _) => Raise e
      end
  | _ => bad_parameters
  end.

(** [_paginate(argslist, page_size)] of [execute_values]. *)
Fixpoint paginate {A} (fuel : nat) (page_size : nat) (l : list A) : list (list A) :=
  match fuel, l with
  | _, [] => []
  | O, _ => []
  | S fuel', _ => take page_size l :: paginate fuel' page_size (drop page_size l)
  end.

(** ** The adapter's world: connection, cursor, log *)

Inductive log_level := INFO | WARNING | ERROR.

(** What the adapter does to its collaborators, in program order. *)
Inductive event :=
| Log (lvl : log_level) (msg : string)
| GetConn
| CursorOpen
| Execute (s : stmt) (ps : list param)
| ExecuteMany (s : stmt) (data : list (list param))
| Commit
| Rollback
| CursorClose
| PutConn.

Record world := World {
  committed : database;      (* what every other session sees *)
  working : database;        (* the borrowed connection's transaction *)
  result_set : list sqlrow; (* rows not yet fetched from the cursor *)
  borrowed : nat;                   (* connections out of the pool *)
  trace : list event;
}.

(** A method body: it may change the world and it returns or raises. *)
Definition M (A : Type) : Type := world → outcome A * world.

#[global] Instance M_ret : MRet M := λ A a w, (Return a, w).

#[global] Instance M_bind : MBind M := λ A B f m w,
  match m w with
  | (Return a, w') => f a w'
  | (Raise e, w') => (Raise e, w')
  end.

Definition raise {A} (e : exn) : M A := λ w, (Raise e, w).

Definition lift {A} (o : outcome A) : M A := λ w, (o, w).

Definition emit (e : event) (w : world) : world :=
  World (committed w) (working w) (result_set w) (borrowed w) (trace w ++ [e]).

Definition logger (lvl : log_level) (msg : string) : M () :=
  λ w, (Return (), emit (Log lvl msg) w).

(** *** The connection *)

(** A connection handed out by the pool has no transaction in progress:
    its view is the committed database. *)
Definition getconn (w : world) : world :=
  World (committed w) (committed w) [] (S (borrowed w)) (trace w ++ [GetConn]).

Definition putconn (w : world) : world :=
  World (committed w) (working w) (result_set w) (pred (borrowed w)) (trace w ++ [PutConn]).

Definition conn_commit (w : world) : world :=
  World (working w) (working w) (result_set w) (borrowed w) (trace w ++ [Commit]).

Definition conn_rollback (w : world) : world :=
  World (committed w) (committed w) (result_set w) (borrowed w) (trace w ++ [Rollback]).

Definition cursor_open (w : world) : world := emit CursorOpen w.

Definition cursor_close (w : world) : world :=
  World (committed w) (working w) [] (borrowed w) (trace w ++ [CursorClose]).

(** *** The cursor *)

Inductive cursor := Cursor.

Definition execute (cur : cursor) (s : stmt) (ps : list param) : M () := λ w,
  match exec s ps (working w) with
  | Return (db, rows) =>
      (Return (), World (committed w) db rows (borrowed w) (trace w ++ [Execute s ps]))
  | Raise e => (Raise e, emit (Execute s ps) w)
  end.

Definition executemany (cur : cursor) (s : stmt) (data : list (list param)) : M () := λ w,
  let (err, db) := exec_many s data (working w) in
  (match err with
   | None => Return ()
   | Some e => Raise e
   end,
   World (committed w) db [] (borrowed w) (trace w ++ [ExecuteMany s data])).

(** [psycopg2.extras.execute_values(cur, sql, argslist)]: one statement per
    page of 100 tuples, until a page is rejected. *)
Definition execute_page (cur : cursor) (s : stmt) (page : list (list param)) : M () := λ w,
  match exec_values s page (working w) with
  | Return db =>
      (Return (), World (committed w) db [] (borrowed w) (trace w ++ [ExecuteMany s page]))
  | Raise e => (Raise e, emit (ExecuteMany s page) w)
  end.

Fixpoint execute_pages (cur : cursor) (s : stmt) (pages : list (list (list param))) : M () :=
  match pages with
  | [] => mret ()
  | page :: pages' => execute_page cur s page;; execute_pages cur s pages'
  end.

Definition execute_values (cur : cursor) (s : stmt) (argslist : list (list param)) : M () :=
  execute_pages cur s (paginate (length argslist) 100 argslist).

Definition fetchone (cur : cursor) : M (option sqlrow) := λ w,
  match result_set w with
  | [] => (Return None, w)
  | r :: rs =>
      (Return (Some r), World (committed w) (working w) rs (borrowed w) (trace w))
  end.

Definition fetchall (cur : cursor) : M (list sqlrow) := λ w,
  (Return (result_set w),
   World (committed w) (working w) [] (borrowed w) (trace w)).

(** A list comprehension whose element expression may raise. *)
Fixpoint comprehension {A B} (f : A → outcome B) (l : list A) : outcome (list B) :=
  match l with
  | [] => Return []
  | x :: l' =>
      match f x with
      | Raise e => Raise e
      | Return y =>
          match comprehension f l' with
          | Raise e => Raise e
          | Return ys => Return (y :: ys)
          end
      end
  end.

(** ** class PGVector *)
Section Methods.

Variable PSYCOPG_VERSION : psycopg_version.
Variable self : PGVector.

(** [_get_cursor] (lines 88-112).  With psycopg3 the pool's
    [connection()] scope does the work: it commits when the block ends
    normally, rolls back when it ends with an exception, and returns the
    connection to the pool; the [commit] argument is not read.  With
    psycopg2 the adapter does it by hand. *)
Definition _get_cursor {A} (commit : bool) (block : cursor → M A) : M A := λ w,
  match PSYCOPG_VERSION with
  | V3 =>
      let w1 := cursor_open (getconn w) in
      let (r, w2) := block Cursor w1 in
      let w3 := cursor_close w2 in
      (r, putconn match r with
                  | Return _ => conn_commit w3
                  | Raise _ => conn_rollback w3
                  end)
  | V2 =>
      let w1 := cursor_open (getconn w) in
      let (r, w2) := block Cursor w1 in
      let w3 := match r with
                | Return _ => if commit then conn_commit w2 else w2
                | Raise e => if is_Exception e then conn_rollback w2 else w2
                end in
      (r, putconn (cursor_close w3))
  end.

(** [create_col] (lines 114-148). *)
Definition create_col : M () :=
  _get_cursor true (λ cur,
    execute cur CREATE_EXTENSION_vector [];;
    execute cur (CREATE_TABLE (collection_name self) (embedding_model_dims self)) [];;
    if use_diskann self && (embedding_model_dims self <? 2000) then
      execute cur SELECT_pg_extension_vectorscale [];;
      ext ← fetchone cur;
      if ext is Some _ then
        execute cur (CREATE_INDEX (collection_name self +:+ "_diskann_idx")
                       (collection_name self) diskann) []
      else mret ()
    else if use_hnsw self then
      execute cur (CREATE_INDEX (collection_name self +:+ "_hnsw_idx")
                     (collection_name self) hnsw) []
    else mret ()).

(** A call [self.create_col(args...)]: the method is declared with [self]
    alone, so Python rejects any further positional argument before the
    body runs. *)
Definition call_create_col (args : list cursor) : M () :=
  match args with
  | [] => create_col
  | _ => raise (TypeError "PGVector.create_col() takes 1 positional argument but 2 were given")
  end.

(** [for x in xs] over an argument whose default is [None]. *)
Definition iterable {A} (xs : option (list A)) : M (list A) :=
  match xs with
  | Some l => mret l
  | None => raise (TypeError "'NoneType' object is not iterable")
  end.

Fixpoint zip3 {A B C} (xs : list A) (ys : list B) (zs : list C) : list (A * B * C) :=
  match xs, ys, zs with
  | x :: xs', y :: ys', z :: zs' => (x, y, z) :: zip3 xs' ys' zs'
  | _, _, _ => []
  end.

(** [insert] (lines 150-167); [json.dumps] and the engine's JSON parser are
    a lossless round trip, so the serialised payload is carried as the
    value itself. *)
Definition insert (vectors : list (list float))
    (payloads : option (list (option pydict))) (ids : option (list string)) : M () :=
  logger INFO ("Inserting " +:+ pretty (length vectors) +:+ " vectors into collection "
               +:+ collection_name self);;
  json_payloads ← iterable payloads;
  ids ← iterable ids;
  let data := (λ t : string * list float * option pydict,
                 [PStr t.1.1; PVec t.1.2; PJson t.2]) <$> zip3 ids vectors json_payloads in
  match PSYCOPG_VERSION with
  | V3 =>
      _get_cursor true (λ cur,
        executemany cur (INSERT (collection_name self) "(%s, %s, %s)") data)
  | V2 =>
      _get_cursor true (λ cur,
        execute_values cur (INSERT (collection_name self) "%s") data)
  end.

(** The filter loop shared by [search] (lines 188-196) and [list]
    (lines 332-340). *)
Definition filter_loop (filters : option filter_dict) : list string * list string :=
  match filters with
  | Some ((_ :: _) as items) =>
      foldl (λ acc kv, (acc.1 ++ ["payload->>%s = %s"], acc.2 ++ [kv.1; py_str kv.2]))
            ([], []) items
  | _ => ([], [])
  end.

Definition filter_clause (filter_conditions : list string) : string :=
  match filter_conditions with
  | [] => ""
  | _ => "WHERE " +:+ String.concat " AND " filter_conditions
  end.

(** [OutputData(id=str(r[0]), score=float(r[1]), payload=r[2])] on a row
    of the search statement: id, distance, payload.  A shorter tuple makes
    the subscript raise; a column of another kind is rejected when the
    model is built. *)
Definition search_output (r : sqlrow) : outcome (OutputData.t float) :=
  match r with
  | [VStr i; VFloat d; VJson p] => Return (OutputData.mk (Some i) (Some d) p)
  | [_; _; _] => Raise (TypeError "OutputData: wrong column type")
  | _ => Raise (IndexError "tuple index out of range")
  end.

(** [OutputData(id=str(r[0]), score=None, payload=r[2])] on a row of
    [SELECT id, vector, payload]. *)
Definition record_output (r : sqlrow) : outcome (OutputData.t float) :=
  match r with
  | [VStr i; _; VJson p] => Return (OutputData.mk (Some i) None p)
  | [_; _; _] => Raise (TypeError "OutputData: wrong column type")
  | _ => Raise (IndexError "tuple index out of range")
  end.

(** [limit]: an int or [None]. *)
Definition limit_param (limit : option Z) : param :=
  match limit with
  | Some n => PInt n
  | None => PNone
  end.

(** [search] (lines 169-211). *)
Definition search (query : string) (vectors : list float)
    (limit : option Z) (filters : option filter_dict) : M (list (OutputData.t float)) :=
  let (filter_conditions, filter_params) := filter_loop filters in
  let filter_clause := filter_clause filter_conditions in
  results ← _get_cursor false (λ cur,
    execute cur (SELECT_search (collection_name self) filter_clause)
      ([PVec vectors] ++ (PStr <$> filter_params) ++ [limit_param limit]);;
    fetchall cur);
  lift (comprehension search_output results).

(** [delete] (lines 213-221). *)
Definition delete (vector_id : string) : M () :=
  _get_cursor true (λ cur,
    execute cur (DELETE (collection_name self)) [PStr vector_id]).

(** [update] (lines 223-256); [if vector:] and [if payload:] test
    truthiness. *)
Definition truthy_list {A} (l : option (list A)) : bool :=
  match l with
  | Some (_ :: _) => true
  | _ => false
  end.

Definition truthy_dict (d : option pydict) : bool :=
  match d with
  | Some m => bool_decide (m ≠ ∅)
  | None => false
  end.

Definition update (vector_id : string) (vector : option (list float))
    (payload : option pydict) : M () :=
  _get_cursor true (λ cur,
    (if truthy_list vector then
       execute cur (UPDATE_vector (collection_name self))
         [PVec (default [] vector); PStr vector_id]
     else mret ());;
    if truthy_dict payload then
      match PSYCOPG_VERSION with
      | V3 => execute cur (UPDATE_payload (collection_name self))
                [PJson payload; PStr vector_id]
      | V2 => execute cur (UPDATE_payload (collection_name self))
                [PJson payload; PStr vector_id]
      end
    else mret ()).

(** [get] (lines 259-277). *)
Definition get (vector_id : string) : M (option (OutputData.t float)) :=
  _get_cursor false (λ cur,
    execute cur (SELECT_get (collection_name self)) [PStr vector_id];;
    result ← fetchone cur;
    match result with
    | None => mret None
    | Some r => o ← lift (record_output r); mret (Some o)
    end).

(** [list_cols] (lines 279-288). *)
Definition list_cols : M (list string) :=
  _get_cursor false (λ cur,
    execute cur SELECT_tables [];;
    rows ← fetchall cur;
    lift (comprehension (λ r : sqlrow,
            match r with
            | VStr name :: _ => Return name
            | _ :: _ => Raise (TypeError "table_name is not a string")
            | [] => Raise (IndexError "tuple index out of range")
            end) rows)).

(** [delete_col] (lines 290-293). *)
Definition delete_col : M () :=
  _get_cursor true (λ cur, execute cur (DROP_TABLE (collection_name self)) []).

(** [col_info] (lines 295-315): the dict with keys name, count, size. *)
Definition col_info : M (sqlval * sqlval * sqlval) :=
  result ← _get_cursor false (λ cur,
    execute cur (SELECT_col_info (collection_name self)) [PStr (collection_name self)];;
    fetchone cur);
  match result with
  | Some [name; count; size] => mret (name, count, size)
  | Some _ => raise (IndexError "tuple index out of range")
  | None => raise (TypeError "'NoneType' object is not subscriptable")
  end.

(** [list] (lines 317-352): the comprehension is wrapped in one more
    list. *)
Definition list_ (filters : option filter_dict) (limit : option Z)
  : M (list (list (OutputData.t float))) :=
  let (filter_conditions, filter_params) := filter_loop filters in
  let filter_clause := filter_clause filter_conditions in
  results ← _get_cursor false (λ cur,
    execute cur (SELECT_list (collection_name self) filter_clause)
      ((PStr <$> filter_params) ++ [limit_param limit]);;
    fetchall cur);
  rs ← lift (comprehension record_output results);
  mret [rs].

(** [reset] (lines 367-372). *)
Definition reset : M () :=
  logger WARNING ("Resetting index " +:+ collection_name self +:+ "...");;
  delete_col;;
  _get_cursor true (λ cur, call_create_col [cur]).

(** The end of [__init__] (lines 84-86). *)
Definition init : M () :=
  collections ← list_cols;
  if bool_decide (collection_name self ∈ collections) then mret ()
  else call_create_col [].

End Methods.

(** ** Observations used to state the properties *)

(** The events added between two worlds. *)
Definition new_events (w w' : world) : list event :=
  drop (length (trace w)) (trace w').

(** The statements executed, in order. *)
Definition issued (t : list event) : list stmt :=
  omap (λ e, match e with
             | Execute s _ => Some s
             | ExecuteMany s _ => Some s
             | _ => None
             end) t.

(** The index methods of the [CREATE INDEX] statements executed. *)
Definition created_indexes (t : list event) : list index_method :=
  omap (λ e, match e with
             | Execute (CREATE_INDEX _ _ m) _ => Some m
             | _ => None
             end) t.

Definition is_commit (e : event) : bool :=
  match e with
  | Commit => true
  | _ => false
  end.

Fixpoint commits (t : list event) : nat :=
  match t with
  | [] => 0
  | e :: t' => (if is_commit e then 1 else 0) + commits t'
  end.

(** A computation that adds no commit to the log and leaves the committed
    database as it is. *)
Definition no_commit {A} (m : M A) : Prop :=
  ∀ w, commits (trace (m w).2) = commits (trace w) ∧ committed (m w).2 = committed w.

(** The index strategy in the words of the specification: DiskANN when it
    is requested, the dimensionality is below 2000 and the extension is
    installed; else HNSW when it is requested; else none. *)
Definition spec_index_strategy (self : PGVector) (vectorscale_installed : bool)
  : list index_method :=
  if use_diskann self && (embedding_model_dims self <? 2000) && vectorscale_installed
  then [diskann]
  else if use_hnsw self then [hnsw]
  else [].


(** The filter dict as the (key, text) pairs the statement compares. *)
Definition filter_pairs (filters : option filter_dict) : list (string * string) :=
  (λ kv, (kv.1, py_str kv.2)) <$> default [] filters.

(** The record [search] builds from a stored row and its distance. *)
Definition scored_output (dr : float * row) : OutputData.t float :=
  OutputData.mk (Some (row_id dr.2)) (Some dr.1) (row_payload dr.2).

(** The rows a [search] ranks: those that satisfy the filter, nearest
    first. *)
Definition ranked (q : list float) (filters : option filter_dict) (rows : list row)
  : list (float * row) :=
  order_by fst (distance_row q <$> filter (λ r, qualifies (filter_pairs filters) r) rows).

(** The [WHERE] fragment for [n] predicates, in the words of the
    specification. *)
Definition spec_where (n : nat) : string :=
  match n with
  | O => ""
  | S _ => "WHERE " +:+ String.concat " AND " (replicate n "payload->>%s = %s")
  end.

(** The rows of the collection after the statements of
    [update(vector_id, vector, payload)]. *)
Definition set_vector (vector_id : string) (v : list float) (r : row) : row :=
  if bool_decide (row_id r = vector_id) then Row (row_id r) v (row_payload r) else r.

Definition set_payload (vector_id : string) (p : option pydict) (r : row) : row :=
  if bool_decide (row_id r = vector_id) then Row (row_id r) (row_vector r) p else r.

Definition updated_rows (vector_id : string) (vector : option (list float))
    (payload : option pydict) (rows : list row) : list row :=
  let rows1 := if truthy_list vector
               then set_vector vector_id (default [] vector) <$> rows else rows in
  if truthy_dict payload then set_payload vector_id payload <$> rows1 else rows1.

(** A stored row before and after [update(vector_id, None, P)], and before
    and after [update(vector_id, V, None)]. *)
Definition only_payload_changed (vector_id : string) (P : pydict) (r r' : row) : Prop :=
  row_id r' = row_id r ∧ row_vector r' = row_vector r
  ∧ (row_id r ≠ vector_id → row_payload r' = row_payload r)
  ∧ (row_id r = vector_id → P ≠ ∅ → row_payload r' = Some P).

Definition only_vector_changed (vector_id : string) (V : list float) (r r' : row) : Prop :=
  row_id r' = row_id r ∧ row_payload r' = row_payload r
  ∧ (row_id r ≠ vector_id → row_vector r' = row_vector r)
  ∧ (row_id r = vector_id → V ≠ [] → row_vector r' = V).

(** One step of an update seen from a stored row: what it may not do. *)
Definition keeps_nonempty (old new : row) : Prop :=
  row_id new = row_id old ∧
  (row_vector new = [] → row_vector old = []) ∧
  (row_payload new = Some ∅ → row_payload old = Some ∅).

End Model.

Arguments world : clear implicits.
Arguments database : clear implicits.
Arguments table : clear implicits.
Arguments row : clear implicits.
Arguments event : clear implicits.
Arguments param : clear implicits.
Arguments sqlval : clear implicits.

(** ** A concrete engine for closed examples

    Integer components (every small integer is a float) and the squared
    Euclidean distance standing in for [<=>]; the examples below do not
    depend on the metric. *)
Module Examples.

Definition sq_distance (v q : list Z) : Z :=
  foldr Z.add 0 (zip_with (λ a b, (a - b) * (a - b)) v q).

#[global] Instance Z_engine : Engine Z := {|
  cosine_distance := sq_distance;
  float_le := Z.leb;
  pg_size_pretty := λ n, pretty (8192 * Z.of_nat n) +:+ " bytes";
|}.


Definition empty_db : database Z := Database ∅ [].

Definition fresh (db : database Z) : world Z := World db db [] 0 [].

Definition mem0 : PGVector := {|
  collection_name := "mem0";
  use_diskann := false;
  use_hnsw := true;
  embedding_model_dims := 4;
|}.

(** DiskANN requested with HNSW left enabled, below 2000 dimensions. *)
Definition mem0_diskann : PGVector := {|
  collection_name := "mem0";
  use_diskann := true;
  use_hnsw := true;
  embedding_model_dims := 1536;
|}.

Definition payload_a : pydict := {[ "k" := PyStr "a" ]}.
Definition payload_b : pydict := {[ "k" := PyStr "b" ]}.
Definition payload_c : pydict := {[ "k" := PyStr "c" ]}.

(** The collection after the three records below are inserted. *)
Definition mem0_table : table Z :=
  Table 4
    [Row "a" [1;0;0;0] (Some payload_a);
     Row "b" [0;1;0;0] (Some payload_b);
     Row "c" [0;0;1;0] (Some payload_c)]
    [("mem0_hnsw_idx", hnsw)].

(** [__init__] on an empty database, then one [insert] of three records. *)
Definition three_records (v : psycopg_version) : world Z :=
  snd ((init v mem0;;
        insert v mem0 [[1;0;0;0]; [0;1;0;0]; [0;0;1;0]]
          (Some [Some payload_a; Some payload_b; Some payload_c])
          (Some ["a"; "b"; "c"]) : M ()) (fresh empty_db)).



End Examples.


(** ** Importing the module (lines 1-33)

    What the import statements need from the environment. *)
Record site_packages := {
  has_psycopg : bool;        (* the psycopg (version 3) package *)
  has_psycopg_pool : bool;   (* the psycopg_pool package *)
  has_psycopg2 : bool;       (* the psycopg2 package *)
}.

Inductive import_failure :=
| ModuleNotFoundError (name : string)
| NameError (name : string)
| ImportError (msg : string).

(** The module body up to line 29.  Line 6 imports [psycopg.types.json]
    outside any [try].  The [try] of lines 10-15 binds [logger] only after
    both of its imports succeeded, so its handler (line 16) is entered with
    [logger] unbound, and the handler's first statement is
    [logger.error(...)]. *)
Definition import_pgvector (env : site_packages) : import_failure + psycopg_version :=
  if negb (has_psycopg env) then inl (ModuleNotFoundError "psycopg")       (* line 6 *)
  else
    let logger_bound := false in                                           (* lines 1-9 *)
    if has_psycopg env && has_psycopg_pool env then inr V3                 (* lines 11-15 *)
    else                                                                   (* line 16 *)
      if logger_bound then                                                 (* line 17 *)
        if has_psycopg2 env then inr V2                                    (* lines 19-24 *)
        else inl (ImportError
                    "Neither 'psycopg' nor 'psycopg2' library is available. ")
      else inl (NameError "logger").

(** ** Further observations *)
Section MoreObservations.
Context {float : Type} `{!Engine float}.

(** A computation that hands back every connection it borrows. *)
Definition keeps_pool {A} (m : @M float A) : Prop :=
  ∀ w, borrowed (m w).2 = borrowed w.

(** A computation that leaves the committed database as it is. *)
Definition keeps_database {A} (m : @M float A) : Prop :=
  ∀ w, committed (m w).2 = committed w.

(** A block that changes neither the committed database nor the
    transaction's view of it. *)
Definition reads_only {A} (m : @M float A) : Prop :=
  ∀ w, committed (m w).2 = committed w ∧ working (m w).2 = working w.

(** The statements that only read. *)
Definition is_select (s : stmt) : bool :=
  match s with
  | SELECT_pg_extension_vectorscale | SELECT_search _ _ | SELECT_get _
  | SELECT_tables | SELECT_col_info _ | SELECT_list _ _ => true
  | _ => false
  end.

(** A computation whose failure leaves no trace in the committed
    database. *)
Definition all_or_nothing {A} (m : @M float A) : Prop :=
  ∀ w e w', m w = (Raise e, w') → committed w' = committed w.

(** The rows of the collection in the committed database. *)
Definition stored (self : PGVector) (w : world float) : option (list (row float)) :=
  tbl_rows <$> tables (committed w) !! collection_name self.

(** The record [get] and [list] build from a stored row. *)
Definition plain_output (r : row float) : OutputData.t float :=
  OutputData.mk (Some (row_id r)) None (row_payload r).

(** The rows an [insert] writes: one per triple of the [zip]. *)
Definition inserted_rows (ids : list string) (vectors : list (list float))
    (payloads : list (option pydict)) : list (row float) :=
  (λ t : string * list float * option pydict, Row t.1.1 t.1.2 t.2)
    <$> zip3 ids vectors payloads.

(** The parameter tuple [insert] builds for one triple. *)
Definition insert_params (tr : string * list float * option pydict) : list (param float) :=
  [PStr tr.1.1; PVec tr.1.2; PJson tr.2].

(** The identifiers of a batch can be inserted: they are pairwise distinct
    and none of them is stored yet. *)
Definition insertable (new old : list string) : Prop :=
  NoDup new ∧ ∀ i, i ∈ new → i ∉ old.

(** The database [create_col] leaves: the effect of its statements, one
    after the other. *)
Definition with_index (db : database float) (tbl idx : string) (m : index_method)
  : database float :=
  match tables db !! tbl with
  | None => db
  | Some t =>
      if bool_decide (idx ∈ (tbl_indexes t).*1) then db
      else store db tbl (Table (tbl_dims t) (tbl_rows t) (tbl_indexes t ++ [(idx, m)]))
  end.

Definition with_vector_extension (db : database float) : database float :=
  Database (tables db)
    (if bool_decide ("vector" ∈ extensions db) then extensions db
     else extensions db ++ ["vector"]).

Definition with_table (self : PGVector) (db : database float) : database float :=
  match tables db !! collection_name self with
  | Some _ => db
  | None => store db (collection_name self) (Table (embedding_model_dims self) [] [])
  end.

Definition provisioned (self : PGVector) (db : database float) : database float :=
  let db2 := with_table self (with_vector_extension db) in
  if use_diskann self && (embedding_model_dims self <? 2000) then
    if bool_decide ("vectorscale" ∈ extensions db2)
    then with_index db2 (collection_name self)
           (collection_name self +:+ "_diskann_idx") diskann
    else db2
  else if use_hnsw self
       then with_index db2 (collection_name self)
              (collection_name self +:+ "_hnsw_idx") hnsw
       else db2.

(** How a batch of tuples ends: normally, or with the first error. *)
Definition outcome_of (err : option exn) : outcome () :=
  match err with
  | None => Return ()
  | Some e => Raise e
  end.

End MoreObservations.

(** * The column types of the collection

    [create_col] declares [id UUID PRIMARY KEY] and [vector vector(n)]
    (lines 124-125).  The engine converts the text bound to
    [WHERE id = %s] with the input function of [uuid], which raises on
    text that is not a uuid, and it refuses a vector whose length is not
    [n].  The methods that look a record up by its identifier are embedded
    once more over the engine with these conversions. *)
Module Typed.
Section Typed.
Context {float : Type} `{!Engine float}.
Variable PSYCOPG_VERSION : psycopg_version.
Variable self : PGVector.

(** A hexadecimal digit, in lower case. *)
Definition hex_digit (c : Ascii.ascii) : option Ascii.ascii :=
  let n := Ascii.nat_of_ascii c in
  if ((48 <=? n) && (n <=? 57))%nat then Some c
  else if ((97 <=? n) && (n <=? 102))%nat then Some c
  else if ((65 <=? n) && (n <=? 70))%nat then Some (Ascii.ascii_of_nat (n + 32))
  else None.

(** The engine's [string_to_uuid]: sixteen bytes of two hexadecimal
    digits each; a hyphen may follow every second byte, but not the last
    one. *)
Fixpoint uuid_bytes (i n : nat) (s : string) : option (list Ascii.ascii * string) :=
  match n with
  | O => Some ([], s)
  | S n' =>
      match s with
      | String a (String b rest) =>
          a' ← hex_digit a;
          b' ← hex_digit b;
          let rest' :=
            match strip_prefix "-" rest with
            | Some r => if Nat.odd i && negb (n' =? 0)%nat then r else rest
            | None => rest
            end in
          '(ds, tl) ← uuid_bytes (S i) n' rest';
          Some (a' :: b' :: ds, tl)
      | _ => None
      end
  end.

(** The text of a uuid: 8-4-4-4-12 digits. *)
Definition uuid_out (ds : list Ascii.ascii) : string :=
  String.string_of_list_ascii (take 8 ds) +:+ "-" +:+
  String.string_of_list_ascii (take 4 (drop 8 ds)) +:+ "-" +:+
  String.string_of_list_ascii (take 4 (drop 12 ds)) +:+ "-" +:+
  String.string_of_list_ascii (take 4 (drop 16 ds)) +:+ "-" +:+
  String.string_of_list_ascii (drop 20 ds).

(** [uuid_in] followed by [uuid_out]: the stored form of an identifier,
    when the text is a uuid (braces around it are accepted). *)
Definition uuid_in (s : string) : option string :=
  let (braces, src) :=
    match strip_prefix "{" s with
    | Some r => (true, r)
    | None => (false, s)
    end in
  '(ds, tl) ← uuid_bytes 0 16 src;
  if bool_decide (tl = if braces then "}" else "") then Some (uuid_out ds) else None.

Definition invalid_uuid {A} (s : string) : outcome A :=
  Raise (DatabaseError ("invalid input syntax for type uuid: " +:+ s)).

Definition wrong_dimensions {A} (n : Z) (m : nat) : outcome A :=
  Raise (DatabaseError ("expected " +:+ pretty n +:+ " dimensions, not " +:+ pretty m)).

Definition id_param (i : string) (k : string → list (param float))
  : outcome (list (param float)) :=
  match uuid_in i with
  | Some u => Return (k u)
  | None => invalid_uuid i
  end.

(** The parameters of a statement on an existing table, converted to the
    types of its columns. *)
Definition convert (s : stmt) (ps : list (param float)) (db : database float)
  : outcome (list (param float)) :=
  match s, ps with
  | SELECT_get tbl, [PStr i] | DELETE tbl, [PStr i] =>
      match tables db !! tbl with
      | Some _ => id_param i (λ u, [PStr u])
      | None => Return ps
      end
  | UPDATE_payload tbl, [PJson p; PStr i] =>
      match tables db !! tbl with
      | Some _ => id_param i (λ u, [PJson p; PStr u])
      | None => Return ps
      end
  | UPDATE_vector tbl, [PVec v; PStr i] =>
      match tables db !! tbl with
      | Some t =>
          if bool_decide (Z.of_nat (length v) = tbl_dims t)
          then id_param i (λ u, [PVec v; PStr u])
          else wrong_dimensions (tbl_dims t) (length v)
      | None => Return ps
      end
  | _, _ => Return ps
  end.

Definition typed_exec (s : stmt) (ps : list (param float)) (db : database float)
  : outcome (database float * list (list (sqlval float))) :=
  match convert s ps db with
  | Return ps' => exec s ps' db
  | Raise e => Raise e
  end.

(** [cur.execute(stmt, params)] on the typed engine. *)
Definition execute (cur : cursor) (s : stmt) (ps : list (param float)) : @M float () := λ w,
  match typed_exec s ps (working w) with
  | Return (db, rows) =>
      (Return (), World (committed w) db rows (borrowed w) (trace w ++ [Execute s ps]))
  | Raise e => (Raise e, emit (Execute s ps) w)
  end.

(** [delete] (lines 213-221). *)
Definition delete (vector_id : string) : @M float () :=
  _get_cursor PSYCOPG_VERSION true (λ cur,
    execute cur (DELETE (collection_name self)) [PStr vector_id]).

(** [update] (lines 223-256). *)
Definition update (vector_id : string) (vector : option (list float))
    (payload : option pydict) : @M float () :=
  _get_cursor PSYCOPG_VERSION true (λ cur,
    (if truthy_list vector then
       execute cur (UPDATE_vector (collection_name self))
         [PVec (default [] vector); PStr vector_id]
     else mret ());;
    if truthy_dict payload then
      match PSYCOPG_VERSION with
      | V3 => execute cur (UPDATE_payload (collection_name self))
                [PJson payload; PStr vector_id]
      | V2 => execute cur (UPDATE_payload (collection_name self))
                [PJson payload; PStr vector_id]
      end
    else mret ()).

(** [get] (lines 259-277). *)
Definition get (vector_id : string) : @M float (option (OutputData.t float)) :=
  _get_cursor PSYCOPG_VERSION false (λ cur,
    execute cur (SELECT_get (collection_name self)) [PStr vector_id];;
    result ← fetchone cur;
    match result with
    | None => mret None
    | Some r => o ← lift (record_output r); mret (Some o)
    end).

End Typed.
End Typed.

(** * Properties *)
Section Properties.
Context {float : Type} `{!Engine float}.
Implicit Types (w : world float) (db : database float) (t : table float)
  (self : PGVector) (v : psycopg_version).

(** ** Cursor and connection primitives *)

Lemma execute_trace cur s ps w :
  trace (execute cur s ps w).2 = trace w ++ [Execute s ps].
Proof. unfold execute. by destruct (exec s ps (working w)) as [[??]|?]. Qed.

Lemma execute_committed cur s ps w :
  committed (execute cur s ps w).2 = committed w.
Proof. unfold execute. by destruct (exec s ps (working w)) as [[??]|?]. Qed.

Lemma execute_borrowed cur s ps w :
  borrowed (execute cur s ps w).2 = borrowed w.
Proof. unfold execute. by destruct (exec s ps (working w)) as [[??]|?]. Qed.

Lemma new_events_app w w' l : trace w' = trace w ++ l → new_events w w' = l.
Proof. intros E. unfold new_events. rewrite E. by rewrite drop_app_length. Qed.

Lemma commits_app (l1 l2 : list (event float)) :
  commits (l1 ++ l2) = (commits l1 + commits l2)%nat.
Proof. induction l1 as [|e l1 IH]; cbn; [done|]. rewrite IH. lia. Qed.

(** ** reset *)

(** C1 (the code does not do what the claim says).  [reset] logs its
    warning and drops the table, and then its call [self.create_col(cur)]
    raises [TypeError]: for every driver and every world, [reset] ends
    with that exception and the collection does not exist afterwards.  The
    warning is the first event, before the [DROP TABLE]. *)
Theorem reset_raises_after_drop v self w :
  ∃ w' rest,
    reset v self w =
      (Raise (TypeError "PGVector.create_col() takes 1 positional argument but 2 were given"), w')
    ∧ tables (committed w') !! collection_name self = None
    ∧ trace w' =
        trace w ++ Log WARNING ("Resetting index " +:+ collection_name self +:+ "...")
                :: GetConn :: CursorOpen
                :: Execute (DROP_TABLE (collection_name self)) [] :: rest.
Proof.
  destruct v; cbn -[String.append]; eexists _, _; (split; [reflexivity|]); cbn;
    (split; [apply lookup_delete_eq|]);
    rewrite <- !app_assoc; cbn; reflexivity.
Qed.

(** ** create_col *)

Lemma vectorscale_after_vector (exts : list string) :
  "vectorscale" ∈ (if bool_decide ("vector" ∈ exts) then exts else exts ++ ["vector"])
  ↔ "vectorscale" ∈ exts.
Proof.
  case_bool_decide; [done|]. rewrite elem_of_app, list_elem_of_singleton.
  split; [intros [?|?]; [done|discriminate]|auto].
Qed.

Ltac run :=
  unfold mbind, M_bind, mret, M_ret, execute, fetchone, fetchall, lift, raise,
    cursor_open, getconn, emit;
  cbn -[String.append].

(** C2 (amended).  [create_col] always completes, and it issues the
    DiskANN index statement exactly when DiskANN is requested, the
    dimensionality is below 2000 and the vectorscale extension is
    installed; it issues the HNSW index statement exactly when HNSW is
    enabled and the DiskANN branch is not entered (DiskANN not requested,
    or dimensionality at least 2000).  So with DiskANN requested below
    2000 dimensions and the extension absent no index is created,
    whatever the HNSW flag. *)
Theorem create_col_index_choice v self w :
  ∃ w',
    create_col v self w = (Return (), w')
    ∧ (diskann ∈ created_indexes (new_events w w') ↔
         use_diskann self = true ∧ embedding_model_dims self < 2000
         ∧ "vectorscale" ∈ extensions (committed w))
    ∧ (hnsw ∈ created_indexes (new_events w w') ↔
         use_hnsw self = true
         ∧ ¬ (use_diskann self = true ∧ embedding_model_dims self < 2000)).
Proof.
  pose proof (vectorscale_after_vector (extensions (committed w))) as Hext.
  unfold create_col, _get_cursor, new_events.
  destruct v; run;
    destruct (tables (committed w) !! collection_name self) eqn:Et; cbn -[String.append];
    rewrite ?lookup_insert_eq, ?Et;
    destruct (use_diskann self) eqn:Ed,
             (Z.ltb_spec (embedding_model_dims self) 2000) as [El|El];
    cbn -[String.append];
    rewrite ?lookup_insert_eq, ?Et;
    repeat (case_bool_decide; cbn -[String.append]);
    try (destruct (use_hnsw self) eqn:Eh; cbn -[String.append];
         rewrite ?lookup_insert_eq, ?Et);
    repeat (case_bool_decide; cbn -[String.append]);
    (eexists; split; [reflexivity|]);
    cbn -[String.append]; rewrite <- ?app_assoc, ?drop_app_length; cbn -[String.append];
    rewrite ?elem_of_cons, ?elem_of_nil;
    intuition (try discriminate; try lia; try congruence).
Qed.

(** ** _get_cursor *)

Lemma no_commit_bind {A B} (m : @M float A) (k : A → @M float B) :
  no_commit m → (∀ a, no_commit (k a)) → no_commit (m ≫= k).
Proof.
  intros Hm Hk w. unfold mbind, M_bind. specialize (Hm w).
  destruct (m w) as [[a|e] w1]; cbn in *; [|done].
  destruct (Hk a w1) as [-> ->]. done.
Qed.

Lemma no_commit_ret {A} (a : A) : no_commit (mret a : @M float A).
Proof. done. Qed.

Lemma no_commit_raise {A} e : no_commit (raise e : @M float A).
Proof. done. Qed.

Lemma no_commit_lift {A} (o : outcome A) : no_commit (lift o : @M float A).
Proof. done. Qed.

Lemma no_commit_execute cur s ps : no_commit (execute cur s ps).
Proof.
  intros w. rewrite execute_trace, execute_committed, commits_app. cbn. split; [lia|done].
Qed.

Lemma no_commit_fetchone cur : no_commit (fetchone (float := float) cur).
Proof. intros w. unfold fetchone. by destruct (result_set w). Qed.

Lemma no_commit_fetchall cur : no_commit (fetchall (float := float) cur).
Proof. done. Qed.

Lemma no_commit_get_cursor {A} (block : cursor → @M float A) :
  (∀ cur, no_commit (block cur)) → no_commit (_get_cursor V2 false block).
Proof.
  intros Hb w. unfold _get_cursor.
  destruct (Hb Cursor (cursor_open (getconn w))) as [Ht Hc].
  destruct (block Cursor (cursor_open (getconn w))) as [r wb]; cbn in *.
  rewrite <- !app_assoc, commits_app in Ht. cbn in Ht.
  destruct r as [a|e]; [|destruct (is_Exception e)]; cbn;
    rewrite <- ?app_assoc, commits_app; cbn; split; (lia || done).
Qed.

Create HintDb no_commit.
#[local] Hint Resolve no_commit_ret no_commit_raise no_commit_lift no_commit_execute
  no_commit_fetchone no_commit_fetchall : no_commit.

Ltac no_commit_tac :=
  repeat first
    [ apply no_commit_get_cursor; intros ?
    | apply no_commit_bind; [|intros ?]
    | solve [auto with no_commit]
    | match goal with |- no_commit (match ?x with _ => _ end) => destruct x end ].

Lemma no_commit_search self query q limit filters :
  no_commit (search V2 self query q limit filters).
Proof. unfold search. destruct (filter_loop filters). no_commit_tac. Qed.

Lemma no_commit_get self vector_id : no_commit (get V2 self vector_id).
Proof. unfold get. no_commit_tac. Qed.

Lemma no_commit_list self filters limit : no_commit (list_ V2 self filters limit).
Proof. unfold list_. destruct (filter_loop filters). no_commit_tac. Qed.

Lemma no_commit_list_cols : no_commit (list_cols (float := float) V2).
Proof. unfold list_cols. no_commit_tac. Qed.

Lemma no_commit_col_info self : no_commit (col_info V2 self).
Proof. unfold col_info. no_commit_tac. Qed.

(** C4 (amended).  When the block of an acquisition completes without
    error: with psycopg2 the facade commits exactly when [commit] was
    requested, then closes the cursor and returns the connection, and the
    read-only operations ([search], [get], [list], [list_cols],
    [col_info]) add no commit to the log and leave the committed database
    as it is; with psycopg3 the pool's connection scope commits whatever
    [commit] is. *)
Theorem get_cursor_commit_discipline {A} (commit : bool) (block : cursor → M A) w a wb
    self query q limit filters vector_id :
  block Cursor (cursor_open (getconn w)) = (Return a, wb) →
  (∃ w2, _get_cursor V2 commit block w = (Return a, w2)
         ∧ trace w2 = trace wb ++ (if commit then [Commit] else []) ++ [CursorClose; PutConn]
         ∧ committed w2 = (if commit then working wb else committed wb))
  ∧ (∃ w3, _get_cursor V3 commit block w = (Return a, w3)
           ∧ trace w3 = trace wb ++ [CursorClose; Commit; PutConn]
           ∧ committed w3 = working wb)
  ∧ no_commit (search V2 self query q limit filters)
  ∧ no_commit (get V2 self vector_id)
  ∧ no_commit (list_ V2 self filters limit)
  ∧ no_commit (list_cols (float := float) V2)
  ∧ no_commit (col_info V2 self).
Proof.
  intros Hb. unfold _get_cursor. rewrite Hb.
  split; [|split; [|auto using no_commit_search, no_commit_get, no_commit_list,
                      no_commit_list_cols, no_commit_col_info]];
    eexists; (split; [reflexivity|]).
  - destruct commit; cbn; by rewrite <- ?app_assoc.
  - cbn. by rewrite <- ?app_assoc.
Qed.

(** C5.  Whatever the outcome of the block, the facade hands that outcome
    on unchanged (an error is re-raised, never suppressed), and its last
    action is to return the connection to the pool.  When the block
    raised an error (an [Exception]), the facade has rolled the
    transaction back before that: the connection's view is the committed
    database again. *)
Theorem get_cursor_exit {A} v (commit : bool) (block : cursor → M A) w r wb :
  block Cursor (cursor_open (getconn w)) = (r, wb) →
  ∃ w' mid,
    _get_cursor v commit block w = (r, w')
    ∧ trace w' = trace wb ++ mid ++ [PutConn]
    ∧ borrowed w' = pred (borrowed wb)
    ∧ (∀ e, r = Raise e → is_Exception e = true →
         Rollback ∈ mid ∧ (Commit ∉ mid)
         ∧ committed w' = committed wb ∧ working w' = committed wb).
Proof.
  intros Hb. unfold _get_cursor. rewrite Hb.
  destruct v, r as [a|e].
  - exists (putconn (cursor_close (if commit then conn_commit wb else wb))),
      ((if commit then [Commit] else []) ++ [CursorClose]).
    destruct commit; cbn; rewrite <- ?app_assoc; by repeat (split; [done|]).
  - exists (putconn (cursor_close (if is_Exception e then conn_rollback wb else wb))),
      ((if is_Exception e then [Rollback] else []) ++ [CursorClose]).
    split; [done|]. destruct (is_Exception e) eqn:Ee; cbn; rewrite <- ?app_assoc;
      do 2 (split; [done|]); intros e' [= <-] He; [|congruence].
    rewrite !elem_of_cons, !elem_of_nil. split; [by left|].
    split; [|done]. by intros [?|[?|[]]].
  - exists (putconn (conn_commit (cursor_close wb))), [CursorClose; Commit].
    cbn; rewrite <- ?app_assoc; by repeat (split; [done|]).
  - exists (putconn (conn_rollback (cursor_close wb))), [CursorClose; Rollback].
    cbn; rewrite <- ?app_assoc. do 3 (split; [done|]). intros e' [= <-] He.
    rewrite !elem_of_cons, !elem_of_nil. split; [by right; left|].
    split; [|done]. by intros [?|[?|[]]].
Qed.

(** ** Point operations on an identifier that is not stored *)

Lemma store_same db tbl t : tables db !! tbl = Some t → store db tbl t = db.
Proof. intros Ht. destruct db as [tabs exts]. unfold store. cbn in *. by rewrite insert_id. Qed.

Lemma set_rows_same t : set_rows t (tbl_rows t) = t.
Proof. by destruct t. Qed.


Lemma filter_this_id (rows : list (row float)) i :
  i ∉ row_id <$> rows → filter (λ r, row_id r = i) rows = [].
Proof.
  induction rows as [|r rows IH]; [done|]. rewrite fmap_cons, not_elem_of_cons.
  intros [Hne Hni]. rewrite filter_cons_False by (by intros ?). by rewrite IH.
Qed.



(** ** update *)

Lemma update_spec v self w t vector_id vector payload :
  tables (committed w) !! collection_name self = Some t →
  ∃ w',
    update v self vector_id vector payload w = (Return (), w')
    ∧ committed w' =
        store (committed w) (collection_name self)
          (set_rows t (updated_rows vector_id vector payload (tbl_rows t)))
    ∧ issued (new_events w w') =
        (if truthy_list vector then [UPDATE_vector (collection_name self)] else []) ++
        (if truthy_dict payload then [UPDATE_payload (collection_name self)] else []).
Proof.
  intros Ht. unfold update, _get_cursor, updated_rows, new_events.
  destruct v, (truthy_list vector), (truthy_dict payload); run; rewrite ?Ht; cbn;
    rewrite ?lookup_insert_eq; cbn; eexists; (split; [reflexivity|]); cbn;
    rewrite <- ?app_assoc, ?drop_app_length; cbn;
    (split; [|done]);
    rewrite ?set_rows_same, ?store_same by done; try done;
    unfold store, set_vector, set_payload; cbn; by rewrite ?insert_insert_eq.
Qed.

Lemma update_missing_table v self w vector_id vector payload :
  tables (committed w) !! collection_name self = None →
  committed (update v self vector_id vector payload w).2 = committed w.
Proof.
  intros Ht. unfold update, _get_cursor.
  by destruct v, (truthy_list vector), (truthy_dict payload); run; rewrite ?Ht; cbn.
Qed.

Lemma updated_rows_keep vector_id vector payload (rows : list (row float)) :
  Forall2 keeps_nonempty rows (updated_rows vector_id vector payload rows).
Proof.
  unfold updated_rows.
  destruct vector as [[|x vec]|], payload as [m|]; cbn; try case_bool_decide;
    rewrite <- ?list_fmap_compose; try apply Forall2_fmap_r;
    apply Forall_Forall2_diag, Forall_forall; intros r _;
    unfold keeps_nonempty, set_payload, set_vector, compose; cbn;
    repeat case_bool_decide; cbn; repeat split; try done; congruence.
Qed.

(** C10.  [update] tests its arguments for truthiness: an empty vector
    list is treated exactly as [None], and so is an empty payload dict;
    and whatever the arguments and the outcome, a stored row whose vector
    is empty or whose payload is the empty object after the call had it
    already before. *)
Theorem update_truthiness v self w vector_id vector payload :
  update v self vector_id (Some []) payload w = update v self vector_id None payload w
  ∧ update v self vector_id vector (Some ∅) w = update v self vector_id vector None w
  ∧ ∀ name t',
      tables (committed (update v self vector_id vector payload w).2) !! name = Some t' →
      ∃ t, tables (committed w) !! name = Some t
           ∧ Forall2 keeps_nonempty (tbl_rows t) (tbl_rows t').
Proof.
  split; [done|]. split.
  - unfold update. cbn. by rewrite bool_decide_eq_false_2 by (by intros ?).
  - intros name t' Ht'.
    assert (Hrefl : ∀ rows : list (row float), Forall2 keeps_nonempty rows rows).
    { intros rows. by apply Forall_Forall2_diag, Forall_forall. }
    destruct (tables (committed w) !! collection_name self) as [t|] eqn:Ht.
    + destruct (update_spec v self w t vector_id vector payload Ht) as (w' & Hu & Hc & _).
      rewrite Hu in Ht'. cbn in Ht'. rewrite Hc in Ht'. cbn in Ht'.
      destruct (decide (name = collection_name self)) as [->|Hne].
      * rewrite lookup_insert_eq in Ht'. injection Ht' as <-.
        exists t. split; [done|]. apply updated_rows_keep.
      * rewrite lookup_insert_ne in Ht' by done. eauto.
    + rewrite update_missing_table in Ht' by done. eauto.
Qed.


(** C7.  In an existing collection [update] completes and modifies only
    what it is given: with [vector=None] every stored vector is unchanged
    and only the payload of the row with that identifier is set; with
    [payload=None] every stored payload is unchanged and only the vector
    of that row is set; with both omitted no statement is issued and the
    committed database is unchanged. *)
Theorem update_only_given_fields v self w t vector_id :
  tables (committed w) !! collection_name self = Some t →
  (∀ P, ∃ w' t',
      update v self vector_id None (Some P) w = (Return (), w')
      ∧ tables (committed w') !! collection_name self = Some t'
      ∧ Forall2 (only_payload_changed vector_id P) (tbl_rows t) (tbl_rows t'))
  ∧ (∀ V, ∃ w' t',
      update v self vector_id (Some V) None w = (Return (), w')
      ∧ tables (committed w') !! collection_name self = Some t'
      ∧ Forall2 (only_vector_changed vector_id V) (tbl_rows t) (tbl_rows t'))
  ∧ (∃ w', update v self vector_id None None w = (Return (), w')
           ∧ issued (new_events w w') = []
           ∧ committed w' = committed w).
Proof.
  intros Ht. split; [|split].
  - intros P.
    destruct (update_spec v self w t vector_id None (Some P) Ht) as (w' & Hu & Hc & _).
    eexists w', _. split; [done|]. rewrite Hc. cbn. rewrite lookup_insert_eq.
    split; [done|]. cbn. unfold updated_rows. cbn.
    case_bool_decide; try apply Forall2_fmap_r;
      apply Forall_Forall2_diag, Forall_forall; intros r _;
      unfold only_payload_changed, set_payload, compose;
      repeat case_bool_decide; cbn; by repeat split.
  - intros V.
    destruct (update_spec v self w t vector_id (Some V) None Ht) as (w' & Hu & Hc & _).
    eexists w', _. split; [done|]. rewrite Hc. cbn. rewrite lookup_insert_eq.
    split; [done|]. cbn. unfold updated_rows.
    destruct V as [|x V]; cbn; try apply Forall2_fmap_r;
      apply Forall_Forall2_diag, Forall_forall; intros r _;
      unfold only_vector_changed, set_vector, compose;
      repeat case_bool_decide; cbn; by repeat split.
  - destruct (update_spec v self w t vector_id None None Ht) as (w' & Hu & Hc & Hi).
    exists w'. split; [done|]. split; [done|]. rewrite Hc. unfold updated_rows. cbn.
    by rewrite set_rows_same, store_same.
Qed.

(** ** The filter clause *)

Lemma filter_loop_foldl (items : filter_dict) (conds params : list string) :
  foldl (λ acc kv, (acc.1 ++ ["payload->>%s = %s"], acc.2 ++ [kv.1; py_str kv.2]))
        (conds, params) items
  = (conds ++ ((λ _, "payload->>%s = %s") <$> items),
     params ++ (items ≫= λ kv, [kv.1; py_str kv.2])).
Proof.
  revert conds params. induction items as [|kv items IH]; intros conds params; cbn.
  - by rewrite !app_nil_r.
  - rewrite IH. cbn. by rewrite <- !app_assoc.
Qed.

Lemma filter_loop_spec (filters : option filter_dict) :
  filter_loop filters
  = ((λ _, "payload->>%s = %s") <$> default [] filters,
     default [] filters ≫= λ kv, [kv.1; py_str kv.2]).
Proof.
  destruct filters as [[|kv items]|]; [done| |done].
  unfold filter_loop. by rewrite filter_loop_foldl.
Qed.

Lemma fmap_const_replicate {A B} (x : B) (l : list A) :
  (λ _, x) <$> l = replicate (length l) x.
Proof. induction l as [|a l IH]; cbn; [done|]. by rewrite IH. Qed.

Lemma filter_clause_spec (filters : option filter_dict) :
  filter_clause (filter_loop filters).1 = spec_where (length (default [] filters)).
Proof.
  rewrite filter_loop_spec. cbn. rewrite fmap_const_replicate.
  by destruct (default [] filters).
Qed.

Lemma list_events v self limit filters w :
  ∃ rest,
    new_events w (list_ v self filters limit w).2
    = GetConn :: CursorOpen
      :: Execute (SELECT_list (collection_name self)
                    (spec_where (length (default [] filters))))
           ((PStr <$> (default [] filters ≫= λ kv, [kv.1; py_str kv.2]))
            ++ [limit_param limit])
      :: rest.
Proof.
  unfold list_. pose proof (filter_clause_spec filters) as Hc.
  rewrite filter_loop_spec in *. cbn [fst] in Hc. rewrite Hc.
  set (s := SELECT_list _ _). set (ps := _ ++ _).
  unfold _get_cursor, new_events, mbind, M_bind.
  pose proof (execute_trace Cursor s ps (cursor_open (getconn w))) as Ht.
  destruct v; destruct (execute Cursor s ps (cursor_open (getconn w))) as [[[]|e] w2];
    cbn in *; try destruct (is_Exception e); cbn; rewrite Ht;
    repeat match goal with |- context [comprehension ?f ?l] =>
             destruct (comprehension f l); cbn end;
    rewrite <- ?app_assoc, ?drop_app_length; cbn; eexists; reflexivity.
Qed.

Lemma search_events v self query q limit filters w :
  ∃ rest,
    new_events w (search v self query q limit filters w).2
    = GetConn :: CursorOpen
      :: Execute (SELECT_search (collection_name self)
                    (spec_where (length (default [] filters))))
           ([PVec q] ++ (PStr <$> (default [] filters ≫= λ kv, [kv.1; py_str kv.2]))
            ++ [limit_param limit])
      :: rest.
Proof.
  unfold search. pose proof (filter_clause_spec filters) as Hc.
  rewrite filter_loop_spec in *. cbn [fst] in Hc. rewrite Hc.
  set (s := SELECT_search _ _). set (ps := _ ++ _).
  unfold _get_cursor, new_events, mbind, M_bind.
  pose proof (execute_trace Cursor s ps (cursor_open (getconn w))) as Ht.
  destruct v; destruct (execute Cursor s ps (cursor_open (getconn w))) as [[[]|e] w2];
    cbn in *; try destruct (is_Exception e); cbn; rewrite Ht;
    repeat match goal with |- context [comprehension ?f ?l] =>
             destruct (comprehension f l); cbn end;
    rewrite <- ?app_assoc, ?drop_app_length; cbn; eexists; reflexivity.
Qed.

(** C8.  The filter loop yields one predicate text [payload->>%s = %s] per
    entry and the parameters key, [str(value)] in the same order; the
    clause is empty for an absent or empty filter dict and otherwise
    [WHERE] followed by the predicates joined with [AND].  The statement
    [search] and [list] execute carries that clause, whose text is
    determined by the number of entries alone, and the keys and values
    travel in the parameter list. *)
Theorem filters_are_bound_parameters v self query q limit (filters : option filter_dict) w :
  (filter_loop filters).1 = (λ _, "payload->>%s = %s") <$> default [] filters
  ∧ (filter_loop filters).2 = (default [] filters ≫= λ kv, [kv.1; py_str kv.2])
  ∧ filter_clause (filter_loop filters).1 = spec_where (length (default [] filters))
  ∧ filter_clause (filter_loop None).1 = ""
  ∧ filter_clause (filter_loop (Some [])).1 = ""
  ∧ (∃ rest,
       new_events w (search v self query q limit filters w).2
       = GetConn :: CursorOpen
         :: Execute (SELECT_search (collection_name self)
                       (spec_where (length (default [] filters))))
              ([PVec q] ++ (PStr <$> (filter_loop filters).2) ++ [limit_param limit])
         :: rest)
  ∧ (∃ rest,
       new_events w (list_ v self filters limit w).2
       = GetConn :: CursorOpen
         :: Execute (SELECT_list (collection_name self)
                       (spec_where (length (default [] filters))))
              ((PStr <$> (filter_loop filters).2) ++ [limit_param limit])
         :: rest).
Proof.
  rewrite filter_clause_spec, filter_loop_spec. cbn [fst snd].
  repeat (split; [done|]). split; [apply search_events|apply list_events].
Qed.

(** ** search *)

Lemma unsnoc_snoc {A} (l : list A) (x : A) : unsnoc (l ++ [x]) = Some (l, x).
Proof.
  induction l as [|y l IH]; [done|]. cbn [app unsnoc]. rewrite IH.
  by destruct (l ++ [x]) eqn:E; [destruct l|].
Qed.

Lemma bind_filters_pairs (filters : option filter_dict) :
  bind_filters (PStr (float := float) <$> (default [] filters ≫= λ kv, [kv.1; py_str kv.2]))
  = Some (filter_pairs filters).
Proof.
  unfold filter_pairs. induction (default [] filters) as [|kv items IH]; [done|].
  cbn. cbn in IH. by rewrite IH.
Qed.

Lemma concat_replicate_S (sep p : string) n :
  String.concat sep (replicate (S (S n)) p)
  = p +:+ sep +:+ String.concat sep (replicate (S n) p).
Proof. done. Qed.

Lemma string_length_app (a b : string) :
  String.length (a +:+ b) = (String.length a + String.length b)%nat.
Proof.
  induction a as [|c a IH]; [done|].
  change (String c a +:+ b) with (String c (a +:+ b)). cbn [String.length]. by rewrite IH.
Qed.

Lemma strip_prefix_app (p s : string) : strip_prefix p (p +:+ s) = Some s.
Proof.
  induction p as [|c p IH]; [done|].
  change (String c p +:+ s) with (String c (p +:+ s)). cbn [strip_prefix].
  by rewrite Ascii.eqb_refl.
Qed.

Lemma string_app_cons c (p s : string) : String c p +:+ s = String c (p +:+ s).
Proof. done. Qed.

Lemma predicates_length n :
  (n < String.length (String.concat " AND " (replicate (S n) "payload->>%s = %s")))%nat.
Proof.
  induction n as [|n IH]; [cbn; lia|]. rewrite concat_replicate_S, !string_length_app.
  cbn [String.length]. lia.
Qed.

Lemma parse_predicates_spec n fuel :
  (n < fuel)%nat →
  parse_predicates fuel (String.concat " AND " (replicate (S n) "payload->>%s = %s"))
  = Some (S n).
Proof.
  revert fuel. induction n as [|n IH]; intros [|fuel] Hf; try lia; [done|].
  rewrite concat_replicate_S. specialize (IH fuel ltac:(lia)).
  remember (String.concat " AND " (replicate (S n) "payload->>%s = %s")) as X.
  cbn [parse_predicates]. rewrite strip_prefix_app.
  rewrite string_app_cons. cbv iota. rewrite <- string_app_cons.
  rewrite strip_prefix_app. by rewrite IH.
Qed.

Lemma parse_where_spec n : parse_where (spec_where n) = Some n.
Proof.
  destruct n as [|n]; [done|]. unfold spec_where, parse_where.
  remember (String.concat " AND " (replicate (S n) "payload->>%s = %s")) as X.
  rewrite string_app_cons. cbv iota. rewrite <- string_app_cons.
  rewrite strip_prefix_app. subst X. apply parse_predicates_spec, predicates_length.
Qed.

Lemma bind_clause_spec (filters : option filter_dict) :
  bind_clause (spec_where (length (default [] filters)))
    (PStr (float := float) <$> (default [] filters ≫= λ kv, [kv.1; py_str kv.2]))
  = Return (filter_pairs filters).
Proof.
  unfold bind_clause. rewrite parse_where_spec, bind_filters_pairs.
  rewrite bool_decide_eq_true_2; [done|]. unfold filter_pairs. by rewrite length_fmap.
Qed.

Lemma comprehension_search_rows (rs : list (float * row float)) :
  comprehension search_output (search_row <$> rs) = Return (scored_output <$> rs).
Proof. induction rs as [|dr rs IH]; [done|]. cbn. cbn in IH. by rewrite IH. Qed.

Lemma search_result v self query q limit filters w :
  (search v self query q limit filters w).1
  = match tables (committed w) !! collection_name self with
    | None => undefined_table (collection_name self)
    | Some t =>
        match apply_limit (limit_param (float := float) limit)
                (ranked q filters (tbl_rows t)) with
        | Return rs => Return (scored_output <$> rs)
        | Raise e => Raise e
        end
    end.
Proof.
  unfold search. pose proof (filter_clause_spec filters) as Hc.
  rewrite filter_loop_spec in *. cbn [fst] in Hc. rewrite Hc. clear Hc.
  unfold _get_cursor, ranked.
  destruct v; run;
    (destruct (tables (committed w) !! collection_name self) as [t|]; [|done]);
    rewrite unsnoc_snoc, bind_clause_spec;
    match goal with
    | |- context [apply_limit ?a ?b] => destruct (apply_limit a b) as [rs|e]
    end; cbn; by rewrite ?comprehension_search_rows.
Qed.










Lemma insert_by_perm {A} (key : A → float) (x : A) (l : list A) :
  insert_by key x l ≡ₚ x :: l.
Proof.
  induction l as [|y l IH]; [done|]. cbn. destruct (float_le _ _); [done|].
  rewrite IH. apply Permutation_swap.
Qed.

Lemma order_by_perm {A} (key : A → float) (l : list A) : order_by key l ≡ₚ l.
Proof.
  induction l as [|x l IH]; [done|]. unfold order_by in *. cbn [foldr].
  by rewrite insert_by_perm, IH.
Qed.

Lemma elem_of_order_by {A} (key : A → float) (l : list A) x : x ∈ order_by key l ↔ x ∈ l.
Proof.
  induction l as [|y l IH]; [done|]. unfold order_by in *. cbn [foldr].
  rewrite elem_of_cons, <- IH. generalize (foldr (insert_by key) [] l). intros k.
  induction k as [|z k IHk]; cbn; [set_solver|].
  destruct (float_le _ _); rewrite !elem_of_cons; [done|]. rewrite IHk. tauto.
Qed.


End Properties.

(** * The operations together *)
Section Operations.
Context {float : Type} `{!Engine float}.
Implicit Types (w : world float) (db : database float) (t : table float)
  (self : PGVector) (v : psycopg_version) (r : row float).

Ltac step :=
  unfold mbind, M_bind, mret, M_ret, execute, executemany, execute_values, fetchone,
    fetchall, lift, raise, logger, iterable, cursor_open, getconn, emit;
  cbn -[String.append].

(** ** Every method returns its connection *)

Lemma keeps_pool_bind {A B} (m : @M float A) (k : A → @M float B) :
  keeps_pool m → (∀ a, keeps_pool (k a)) → keeps_pool (m ≫= k).
Proof.
  intros Hm Hk w. unfold mbind, M_bind. specialize (Hm w).
  destruct (m w) as [[a|e] w1]; cbn in *; [|done]. by rewrite Hk.
Qed.

Lemma keeps_pool_ret {A} (a : A) : keeps_pool (mret a : @M float A).
Proof. done. Qed.

Lemma keeps_pool_raise {A} e : keeps_pool (raise e : @M float A).
Proof. done. Qed.

Lemma keeps_pool_lift {A} (o : outcome A) : keeps_pool (lift o : @M float A).
Proof. done. Qed.

Lemma keeps_pool_iterable {A} (xs : option (list A)) :
  keeps_pool (iterable xs : @M float (list A)).
Proof. by destruct xs. Qed.

Lemma keeps_pool_logger lvl msg : keeps_pool (logger (float := float) lvl msg).
Proof. done. Qed.

Lemma keeps_pool_execute cur s ps : keeps_pool (execute (float := float) cur s ps).
Proof. intros w. unfold execute. by destruct (exec s ps (working w)) as [[??]|?]. Qed.

Lemma keeps_pool_executemany cur s data :
  keeps_pool (executemany (float := float) cur s data).
Proof. intros w. unfold executemany. by destruct (exec_many s data (working w)). Qed.

Lemma keeps_pool_execute_values cur s data :
  keeps_pool (execute_values (float := float) cur s data).
Proof.
  unfold execute_values. generalize (paginate (length data) 100 data). intros pages.
  induction pages as [|page pages IH]; [done|]. cbn [execute_pages].
  apply keeps_pool_bind; [|done]. intros w. unfold execute_page.
  by destruct (exec_values s page (working w)).
Qed.

Lemma keeps_pool_fetchone cur : keeps_pool (fetchone (float := float) cur).
Proof. intros w. unfold fetchone. by destruct (result_set w). Qed.

Lemma keeps_pool_fetchall cur : keeps_pool (fetchall (float := float) cur).
Proof. done. Qed.

Lemma keeps_pool_get_cursor {A} v commit (block : cursor → @M float A) :
  (∀ cur, keeps_pool (block cur)) → keeps_pool (_get_cursor v commit block).
Proof.
  intros Hb w. unfold _get_cursor.
  pose proof (Hb Cursor (cursor_open (getconn w))) as Hw.
  destruct (block Cursor (cursor_open (getconn w))) as [r wb]; cbn in *.
  destruct v, r as [a|e]; try destruct commit; try destruct (is_Exception e);
    cbn; by rewrite Hw.
Qed.

Create HintDb keeps_pool.
#[local] Hint Resolve keeps_pool_ret keeps_pool_raise keeps_pool_lift keeps_pool_logger
  keeps_pool_iterable
  keeps_pool_execute keeps_pool_executemany keeps_pool_execute_values keeps_pool_fetchone
  keeps_pool_fetchall : keeps_pool.

Ltac keeps_pool_tac :=
  repeat first
    [ apply keeps_pool_get_cursor; intros ?
    | apply keeps_pool_bind; [|intros ?]
    | solve [auto with keeps_pool]
    | match goal with |- keeps_pool (match ?x with _ => _ end) => destruct x end
    | match goal with |- keeps_pool (if ?x then _ else _) => destruct x end ].

Lemma keeps_pool_create_col v self : keeps_pool (create_col (float := float) v self).
Proof. unfold create_col. keeps_pool_tac. Qed.

Lemma keeps_pool_list_cols v : keeps_pool (list_cols (float := float) v).
Proof. unfold list_cols. keeps_pool_tac. Qed.

Lemma keeps_pool_delete_col v self : keeps_pool (delete_col (float := float) v self).
Proof. unfold delete_col. keeps_pool_tac. Qed.

(** X1.  Every method hands back the connection it borrowed, whether it
    returns or raises: the number of connections out of the pool is the
    same after the call as before. *)
Theorem methods_keep_pool v self :
  (∀ vectors payloads ids, keeps_pool (insert (float := float) v self vectors payloads ids))
  ∧ (∀ query q limit filters, keeps_pool (search (float := float) v self query q limit filters))
  ∧ (∀ vector_id, keeps_pool (delete (float := float) v self vector_id))
  ∧ (∀ vector_id vector payload,
       keeps_pool (update (float := float) v self vector_id vector payload))
  ∧ (∀ vector_id, keeps_pool (get (float := float) v self vector_id))
  ∧ keeps_pool (list_cols (float := float) v)
  ∧ keeps_pool (delete_col (float := float) v self)
  ∧ keeps_pool (col_info (float := float) v self)
  ∧ (∀ filters limit, keeps_pool (list_ (float := float) v self filters limit))
  ∧ keeps_pool (create_col (float := float) v self)
  ∧ keeps_pool (reset (float := float) v self)
  ∧ keeps_pool (init (float := float) v self).
Proof.
  pose proof (keeps_pool_create_col v self) as Hc.
  pose proof (keeps_pool_list_cols v) as Hl.
  pose proof (keeps_pool_delete_col v self) as Hd.
  repeat split; try done; intros.
  - unfold insert. keeps_pool_tac.
  - unfold search. destruct (filter_loop filters). keeps_pool_tac.
  - unfold delete. keeps_pool_tac.
  - unfold update. keeps_pool_tac.
  - unfold get. keeps_pool_tac.
  - unfold col_info. keeps_pool_tac.
  - unfold list_. destruct (filter_loop filters). keeps_pool_tac.
  - unfold reset, call_create_col. keeps_pool_tac.
  - unfold init, call_create_col. keeps_pool_tac.
Qed.

(** ** Reading does not write *)

Lemma exec_select s (ps : list (param float)) db db' rows :
  is_select s = true → exec s ps db = Return (db', rows) → db' = db.
Proof.
  intros Hs He. destruct s; try discriminate; cbn in He;
    repeat match type of He with
           | match ?x with _ => _ end = _ => destruct x; try discriminate
           end; by injection He as <- _.
Qed.

Lemma reads_only_execute cur s (ps : list (param float)) :
  is_select s = true → reads_only (execute cur s ps).
Proof.
  intros Hs w. unfold execute. destruct (exec s ps (working w)) as [[db rows]|e] eqn:He; [|done].
  cbn. by rewrite (exec_select _ _ _ _ _ Hs He).
Qed.

Lemma reads_only_bind {A B} (m : @M float A) (k : A → @M float B) :
  reads_only m → (∀ a, reads_only (k a)) → reads_only (m ≫= k).
Proof.
  intros Hm Hk w. unfold mbind, M_bind. specialize (Hm w).
  destruct (m w) as [[a|e] w1]; cbn in *; [|done].
  destruct (Hk a w1) as [-> ->]. done.
Qed.

Lemma reads_only_ret {A} (a : A) : reads_only (mret a : @M float A).
Proof. done. Qed.

Lemma reads_only_lift {A} (o : outcome A) : reads_only (lift o : @M float A).
Proof. done. Qed.

Lemma reads_only_fetchone cur : reads_only (fetchone (float := float) cur).
Proof. intros w. unfold fetchone. by destruct (result_set w). Qed.

Lemma reads_only_fetchall cur : reads_only (fetchall (float := float) cur).
Proof. done. Qed.

Lemma keeps_database_get_cursor {A} v commit (block : cursor → @M float A) :
  (∀ cur, reads_only (block cur)) → keeps_database (_get_cursor v commit block).
Proof.
  intros Hb w. unfold _get_cursor.
  destruct (Hb Cursor (cursor_open (getconn w))) as [Hc Hw].
  destruct (block Cursor (cursor_open (getconn w))) as [r wb]; cbn in *.
  destruct v, r as [a|e]; try destruct commit; try destruct (is_Exception e);
    cbn; congruence.
Qed.

Lemma keeps_database_then_lift {A B} (m : @M float A) (k : A → outcome B) :
  keeps_database m → keeps_database (m ≫= λ a, lift (k a)).
Proof.
  intros Hm w. unfold mbind, M_bind. specialize (Hm w).
  by destruct (m w) as [[a|e] w1].
Qed.

Create HintDb reads_only.
#[local] Hint Resolve reads_only_ret reads_only_lift reads_only_fetchone
  reads_only_fetchall : reads_only.

Ltac reads_only_tac :=
  repeat first
    [ apply reads_only_bind; [|intros ?]
    | apply reads_only_execute; reflexivity
    | solve [auto with reads_only]
    | match goal with |- reads_only (match ?x with _ => _ end) => destruct x end ].

Lemma keeps_database_list_cols v : keeps_database (list_cols (float := float) v).
Proof. unfold list_cols. apply keeps_database_get_cursor. intros ?. reads_only_tac. Qed.

(** X2.  The read operations leave the committed database exactly as it
    was, with either driver and whether they return or raise; with
    psycopg3 the commit that ends them commits nothing. *)
Theorem read_methods_keep_database v self :
  (∀ query q limit filters,
     keeps_database (search (float := float) v self query q limit filters))
  ∧ (∀ vector_id, keeps_database (get (float := float) v self vector_id))
  ∧ (∀ filters limit, keeps_database (list_ (float := float) v self filters limit))
  ∧ keeps_database (list_cols (float := float) v)
  ∧ keeps_database (col_info (float := float) v self).
Proof.
  repeat split; intros.
  - unfold search. destruct (filter_loop filters).
    apply keeps_database_then_lift, keeps_database_get_cursor. intros ?. reads_only_tac.
  - unfold get. apply keeps_database_get_cursor. intros ?. reads_only_tac.
  - unfold list_. destruct (filter_loop filters). intros w.
    unfold mbind at 1. unfold M_bind.
    match goal with
    | |- context [_get_cursor v false ?b w] =>
        pose proof (keeps_database_get_cursor v false b) as Hk
    end.
    lapply Hk; [clear Hk; intros Hk|intros ?; reads_only_tac].
    specialize (Hk w). cbn beta in *.
    match goal with
    | |- context [_get_cursor v false ?b w] => destruct (_get_cursor v false b w) as [[rs|e] w1]
    end; [|done]. cbn in *. unfold mbind, M_bind, lift.
    by destruct (comprehension record_output rs).
  - apply keeps_database_list_cols.
  - unfold col_info. intros w. unfold mbind, M_bind.
    match goal with
    | |- context [_get_cursor v false ?b w] =>
        pose proof (keeps_database_get_cursor v false b) as Hk
    end.
    lapply Hk; [clear Hk; intros Hk|intros ?; reads_only_tac].
    specialize (Hk w).
    match goal with
    | |- context [_get_cursor v false ?b w] => destruct (_get_cursor v false b w) as [[rs|e] w1]
    end; [|done]. cbn in *. by destruct rs as [[|?[|?[|?[|??]]]]|].
Qed.

(** ** A method that raises has changed nothing *)

Lemma keeps_database_bind {A B} (m : @M float A) (k : A → @M float B) :
  keeps_database m → (∀ a, keeps_database (k a)) → keeps_database (m ≫= k).
Proof.
  intros Hm Hk w. unfold mbind, M_bind. specialize (Hm w).
  destruct (m w) as [[a|e] w1]; cbn in *; [|done]. by rewrite Hk.
Qed.

Lemma keeps_database_execute cur s (ps : list (param float)) :
  keeps_database (execute cur s ps).
Proof. intros w. apply execute_committed. Qed.

Lemma keeps_database_executemany cur s (data : list (list (param float))) :
  keeps_database (executemany cur s data).
Proof. intros w. unfold executemany. by destruct (exec_many s data (working w)). Qed.

Lemma keeps_database_execute_values cur s (data : list (list (param float))) :
  keeps_database (execute_values cur s data).
Proof.
  unfold execute_values. generalize (paginate (length data) 100 data). intros pages.
  induction pages as [|page pages IH]; [done|]. cbn [execute_pages].
  apply keeps_database_bind; [|done]. intros w. unfold execute_page.
  by destruct (exec_values s page (working w)).
Qed.

Lemma keeps_database_fetchone cur : keeps_database (fetchone (float := float) cur).
Proof. intros w. unfold fetchone. by destruct (result_set w). Qed.

Lemma keeps_database_ret {A} (a : A) : keeps_database (mret a : @M float A).
Proof. done. Qed.

Lemma keeps_database_raise {A} e : keeps_database (raise e : @M float A).
Proof. done. Qed.

Lemma keeps_database_logger lvl msg : keeps_database (logger (float := float) lvl msg).
Proof. done. Qed.

Lemma keeps_database_iterable {A} (xs : option (list A)) :
  keeps_database (iterable xs : @M float (list A)).
Proof. by destruct xs. Qed.

Lemma all_or_nothing_get_cursor {A} v commit (block : cursor → @M float A) :
  (∀ cur, keeps_database (block cur)) → all_or_nothing (_get_cursor v commit block).
Proof.
  intros Hb w e w'. unfold _get_cursor.
  pose proof (Hb Cursor (cursor_open (getconn w))) as Hw.
  destruct (block Cursor (cursor_open (getconn w))) as [r wb]; cbn in *.
  destruct v, r as [a|e0]; try destruct commit; try destruct (is_Exception e0);
    intros [= <- <-]; cbn; done.
Qed.

Lemma all_or_nothing_bind {A B} (m : @M float A) (k : A → @M float B) :
  keeps_database m → (∀ a, all_or_nothing (k a)) → all_or_nothing (m ≫= k).
Proof.
  intros Hm Hk w e w'. unfold mbind, M_bind. specialize (Hm w).
  destruct (m w) as [[a|e0] w1]; cbn in *.
  - intros Hr. rewrite <- Hm. by eapply Hk.
  - by intros [= <- <-].
Qed.

Ltac block_tac :=
  repeat first
    [ apply keeps_database_bind; [|intros ?]
    | apply keeps_database_execute
    | apply keeps_database_executemany
    | apply keeps_database_execute_values
    | apply keeps_database_fetchone
    | apply keeps_database_ret
    | apply keeps_database_raise
    | done
    | match goal with |- keeps_database (match ?x with _ => _ end) => destruct x end
    | match goal with |- keeps_database (if ?x then _ else _) => destruct x end ].

(** X3.  A failure inside the cursor scope leaves no trace: whenever
    [_get_cursor] raises, with either driver and whatever its block wrote
    before it failed, the committed database is what it was before the
    call.  So a failed [insert] stores nothing, although the engine had
    accepted the tuples that precede the rejected one. *)
Theorem writes_are_all_or_nothing v self :
  (∀ A commit (block : cursor → @M float A),
     (∀ cur, keeps_database (block cur)) → all_or_nothing (_get_cursor v commit block))
  ∧ (∀ vectors payloads ids,
       all_or_nothing (insert (float := float) v self vectors payloads ids)).
Proof.
  split.
  - intros A commit block. apply all_or_nothing_get_cursor.
  - intros vectors payloads ids. unfold insert.
    apply all_or_nothing_bind; [apply keeps_database_logger|intros ?].
    apply all_or_nothing_bind; [apply keeps_database_iterable|intros ?].
    apply all_or_nothing_bind; [apply keeps_database_iterable|intros ?].
    destruct v; apply all_or_nothing_get_cursor; intros ?; block_tac.
Qed.

(** ** insert *)

Lemma store_store db tbl t1 t2 : store (store db tbl t1) tbl t2 = store db tbl t2.
Proof. unfold store. cbn. by rewrite insert_insert_eq. Qed.

Lemma insert_tuples_app tbl (l1 l2 : list (list (param float))) db :
  insert_tuples tbl (l1 ++ l2) db
  = match insert_tuples tbl l1 db with
    | (None, db1) => insert_tuples tbl l2 db1
    | (Some e, db1) => (Some e, db1)
    end.
Proof.
  revert db. induction l1 as [|ps l1 IH]; intros db; [done|].
  cbn [app insert_tuples]. destruct (insert_tuple tbl ps db) as [db1|e]; [apply IH|done].
Qed.

Lemma insert_tuples_fresh (trs : list (string * list float * option pydict)) tbl db t :
  tables db !! tbl = Some t →
  insertable (trs.*1.*1) (row_id <$> tbl_rows t) →
  insert_tuples tbl (insert_params <$> trs) db
  = (None, store db tbl (set_rows t (tbl_rows t ++
              ((λ tr : string * list float * option pydict, Row tr.1.1 tr.1.2 tr.2) <$> trs)))).
Proof.
  revert db t. induction trs as [|[[i vec] p] trs IH]; intros db t Ht [Hnd Hfresh].
  - cbn. by rewrite app_nil_r, set_rows_same, store_same.
  - cbn in Hnd. apply NoDup_cons in Hnd as [Hi Hnd].
    cbn [fmap list_fmap insert_tuples]. unfold insert_tuple. rewrite Ht.
    change (insert_params (i, vec, p)) with [PStr (float := float) i; PVec vec; PJson p].
    cbv iota.
    rewrite bool_decide_eq_false_2 by (apply Hfresh; cbn; left).
    rewrite (IH _ (set_rows t (tbl_rows t ++ [Row i vec p]))); [| |split; [done|]].
    + cbn. by rewrite store_store, <- app_assoc.
    + unfold store. cbn. by rewrite lookup_insert_eq.
    + intros j Hj. cbn. rewrite fmap_app. cbn. rewrite elem_of_app, list_elem_of_singleton.
      intros [Hold| ->]; [|done]. eapply Hfresh; [|done]. cbn. by right.
Qed.

Lemma insert_tuples_stale (trs : list (string * list float * option pydict)) tbl db t :
  tables db !! tbl = Some t →
  ¬ insertable (trs.*1.*1) (row_id <$> tbl_rows t) →
  ∃ db',
    insert_tuples tbl (insert_params <$> trs) db
    = (Some (DatabaseError "duplicate key value violates unique constraint"), db').
Proof.
  revert db t. induction trs as [|[[i vec] p] trs IH]; intros db t Ht Hbad.
  - destruct Hbad. split; [constructor|]. by intros i ?%elem_of_nil.
  - cbn [fmap list_fmap insert_tuples]. unfold insert_tuple. rewrite Ht.
    change (insert_params (i, vec, p)) with [PStr (float := float) i; PVec vec; PJson p].
    cbv iota.
    case_bool_decide as Hi; [by eexists|].
    eapply IH; [unfold store; cbn; by rewrite lookup_insert_eq|].
    intros [Hnd Hfresh]. apply Hbad. cbn. split.
    + apply NoDup_cons. split; [|done]. intros Hin.
      apply (Hfresh i Hin). cbn. rewrite fmap_app. cbn. set_solver.
    + intros j [->|Hj]%elem_of_cons; [done|].
      intros Hold. apply (Hfresh j Hj). cbn. rewrite fmap_app. set_solver.
Qed.

Lemma insert_tuples_missing tbl (data : list (list (param float))) db :
  tables db !! tbl = None → data ≠ [] →
  insert_tuples tbl data db = (Some (DatabaseError ("relation " +:+ tbl +:+ " does not exist")), db).
Proof.
  intros Ht Hd. destruct data as [|ps data]; [done|].
  cbn [insert_tuples]. unfold insert_tuple. by rewrite Ht.
Qed.

Lemma executemany_run cur tbl tmpl (data : list (list (param float))) w :
  ∃ w',
    executemany cur (INSERT tbl tmpl) data w
    = (outcome_of (insert_tuples tbl data (working w)).1, w')
    ∧ committed w' = committed w
    ∧ ((insert_tuples tbl data (working w)).1 = None →
       working w' = (insert_tuples tbl data (working w)).2).
Proof.
  unfold executemany, exec_many.
  destruct (insert_tuples tbl data (working w)) as [[e|] db']; by eexists.
Qed.

Lemma execute_pages_run cur tbl tmpl fuel (data : list (list (param float))) w :
  (length data ≤ fuel)%nat →
  ∃ w',
    execute_pages cur (INSERT tbl tmpl) (paginate fuel 100 data) w
    = (outcome_of (insert_tuples tbl data (working w)).1, w')
    ∧ committed w' = committed w
    ∧ ((insert_tuples tbl data (working w)).1 = None →
       working w' = (insert_tuples tbl data (working w)).2).
Proof.
  revert data w. induction fuel as [|fuel IH]; intros data w Hlen.
  - destruct data; [|cbn in Hlen; lia]. by exists w.
  - destruct data as [|ps data]; [by exists w|].
    cbn [paginate execute_pages].
    pose proof (take_drop 100 (ps :: data)) as Htd.
    assert (length (drop 100 (ps :: data)) ≤ fuel)%nat as Hrest.
    { rewrite length_drop. cbn [length] in *. lia. }
    remember (take 100 (ps :: data)) as page eqn:Hp.
    remember (drop 100 (ps :: data)) as rest eqn:Hr.
    rewrite <- Htd, insert_tuples_app.
    unfold mbind, M_bind, execute_page, exec_values.
    destruct (insert_tuples tbl page (working w)) as [[e|] db1].
    + by eexists.
    + destruct (IH rest
                  (World (committed w) db1 [] (borrowed w)
                     (trace w ++ [ExecuteMany (INSERT tbl tmpl) page])) Hrest)
        as (w' & Hrun & Hc & Hw).
      exists w'. done.
Qed.

Lemma execute_values_run cur tbl tmpl (data : list (list (param float))) w :
  ∃ w',
    execute_values cur (INSERT tbl tmpl) data w
    = (outcome_of (insert_tuples tbl data (working w)).1, w')
    ∧ committed w' = committed w
    ∧ ((insert_tuples tbl data (working w)).1 = None →
       working w' = (insert_tuples tbl data (working w)).2).
Proof. apply execute_pages_run. done. Qed.

Lemma insert_run v self w vectors payloads ids :
  ∃ w',
    insert v self vectors (Some payloads) (Some ids) w
    = (outcome_of (insert_tuples (collection_name self)
                     (insert_params <$> zip3 ids vectors payloads) (committed w)).1, w')
    ∧ committed w'
      = match insert_tuples (collection_name self)
                (insert_params <$> zip3 ids vectors payloads) (committed w) with
        | (None, db') => db'
        | (Some _, _) => committed w
        end
    ∧ ∀ e, (insert_tuples (collection_name self)
              (insert_params <$> zip3 ids vectors payloads) (committed w)).1 = Some e →
           is_Exception e = true → working w' = committed w.
Proof.
  unfold insert.
  destruct v; unfold _get_cursor, iterable, logger, mbind, M_bind, mret, M_ret;
    cbv beta iota;
    change ((λ t0 : string * list float * option pydict,
               [PStr t0.1.1; PVec t0.1.2; PJson t0.2]) <$> zip3 ids vectors payloads)
      with (insert_params <$> zip3 ids vectors payloads);
    match goal with |- context [cursor_open ?x] => set (w1 := cursor_open x) end;
    assert (working w1 = committed w) as Hw1 by done;
    assert (committed w1 = committed w) as Hc1 by done;
    rewrite <- Hw1; clearbody w1.
  - destruct (execute_values_run Cursor (collection_name self) "%s"
                (insert_params <$> zip3 ids vectors payloads) w1) as (w2 & -> & Hc & Hw).
    destruct (insert_tuples _ _ (working w1)) as [[e|] db']; cbn.
    + eexists. split; [done|]. split; [destruct (is_Exception e); cbn; congruence|].
      intros ? [= <-] ->. cbn. congruence.
    + eexists. split; [done|]. split; [by apply Hw|]. by intros.
  - destruct (executemany_run Cursor (collection_name self) "(%s, %s, %s)"
                (insert_params <$> zip3 ids vectors payloads) w1) as (w2 & -> & Hc & Hw).
    destruct (insert_tuples _ _ (working w1)) as [[e|] db']; cbn.
    + eexists. split; [done|]. split; [cbn; congruence|]. intros; cbn; congruence.
    + eexists. split; [done|]. split; [by apply Hw|]. by intros.
Qed.

Lemma insert_fresh v self w t vectors payloads ids :
  tables (committed w) !! collection_name self = Some t →
  insertable ((zip3 ids vectors payloads).*1.*1) (row_id <$> tbl_rows t) →
  ∃ w',
    insert v self vectors (Some payloads) (Some ids) w = (Return (), w')
    ∧ committed w' =
        store (committed w) (collection_name self)
          (set_rows t (tbl_rows t ++ inserted_rows ids vectors payloads)).
Proof.
  intros Ht Hok. destruct (insert_run v self w vectors payloads ids) as (w' & Hi & Hc & _).
  rewrite (insert_tuples_fresh _ _ _ t) in Hi, Hc by done. by exists w'.
Qed.

Lemma insert_stale v self w t vectors payloads ids :
  tables (committed w) !! collection_name self = Some t →
  ¬ insertable ((zip3 ids vectors payloads).*1.*1) (row_id <$> tbl_rows t) →
  ∃ w',
    insert v self vectors (Some payloads) (Some ids) w
    = (Raise (DatabaseError "duplicate key value violates unique constraint"), w')
    ∧ committed w' = committed w
    ∧ working w' = committed w.
Proof.
  intros Ht Hbad. destruct (insert_run v self w vectors payloads ids) as (w' & Hi & Hc & Hw).
  destruct (insert_tuples_stale _ (collection_name self) (committed w) t Ht Hbad) as (db' & Hs).
  rewrite Hs in Hi, Hc, Hw. exists w'. split; [done|]. split; [done|]. by eapply Hw.
Qed.

Lemma zip3_length {A B C} (xs : list A) (ys : list B) (zs : list C) :
  length (zip3 xs ys zs) = (length xs `min` (length ys `min` length zs))%nat.
Proof.
  revert ys zs. induction xs as [|x xs IH]; intros [|y ys] [|z zs]; cbn; try done.
  by rewrite IH.
Qed.

(** X4.  In an existing collection, a batch whose identifiers are pairwise
    distinct and not stored yet is appended after the stored rows, one row
    per triple of [zip(ids, vectors, payloads)] and in that order; what
    exceeds the shortest of the three lists is dropped without an error. *)
Theorem insert_appends_zipped_rows v self w t vectors payloads ids :
  tables (committed w) !! collection_name self = Some t →
  insertable ((zip3 ids vectors payloads).*1.*1) (row_id <$> tbl_rows t) →
  ∃ w',
    insert v self vectors (Some payloads) (Some ids) w = (Return (), w')
    ∧ stored self w' = Some (tbl_rows t ++ inserted_rows ids vectors payloads)
    ∧ length (inserted_rows ids vectors payloads)
      = (length ids `min` (length vectors `min` length payloads))%nat.
Proof.
  intros Ht Hok. destruct (insert_fresh v self w t vectors payloads ids Ht Hok) as (w' & Hi & Hc).
  exists w'. split; [done|]. unfold stored. rewrite Hc. cbn. rewrite lookup_insert_eq.
  split; [done|]. unfold inserted_rows. by rewrite length_fmap, zip3_length.
Qed.

(** X5.  In an existing collection, a batch that repeats an identifier or
    brings one that is already stored is refused as a whole: [insert]
    raises the engine's duplicate-key error, the committed database is
    unchanged, and the tuples the engine had accepted before the rejected
    one are rolled back with the transaction. *)
Theorem insert_rejects_duplicates v self w t vectors payloads ids :
  tables (committed w) !! collection_name self = Some t →
  ¬ insertable ((zip3 ids vectors payloads).*1.*1) (row_id <$> tbl_rows t) →
  ∃ w',
    insert v self vectors (Some payloads) (Some ids) w
    = (Raise (DatabaseError "duplicate key value violates unique constraint"), w')
    ∧ committed w' = committed w
    ∧ working w' = committed w.
Proof. apply insert_stale. Qed.

(** X6.  [payloads] and [ids] default to [None], and [insert] iterates
    over both: a call that leaves either out raises [TypeError] right
    after the log line, before any connection is borrowed. *)
Theorem insert_needs_payloads_and_ids v self vectors payloads ids w :
  insert v self vectors None ids w
  = (Raise (TypeError "'NoneType' object is not iterable"),
     emit (Log INFO ("Inserting " +:+ pretty (length vectors)
                     +:+ " vectors into collection " +:+ collection_name self)) w)
  ∧ insert v self vectors (Some payloads) None w
    = (Raise (TypeError "'NoneType' object is not iterable"),
       emit (Log INFO ("Inserting " +:+ pretty (length vectors)
                       +:+ " vectors into collection " +:+ collection_name self)) w).
Proof. done. Qed.

(** ** get *)

Lemma get_result v self vector_id w :
  (get v self vector_id w).1
  = match tables (committed w) !! collection_name self with
    | None => undefined_table (collection_name self)
    | Some t =>
        Return (plain_output <$> head (filter (λ r, row_id r = vector_id) (tbl_rows t)))
    end.
Proof.
  unfold get, _get_cursor.
  destruct v; step;
    (destruct (tables (committed w) !! collection_name self) as [t|]; [|done]);
    cbn; by destruct (filter _ (tbl_rows t)).
Qed.

Lemma filter_id_app (rows new : list (row float)) i :
  i ∉ row_id <$> rows →
  filter (λ r, row_id r = i) (rows ++ new) = filter (λ r, row_id r = i) new.
Proof. intros Hi. by rewrite filter_app, filter_this_id. Qed.

Lemma filter_id_NoDup (l : list (row float)) r :
  NoDup (row_id <$> l) → r ∈ l → filter (λ x, row_id x = row_id r) l = [r].
Proof.
  induction l as [|x l IH]; [by intros _ ?%elem_of_nil|].
  rewrite fmap_cons, NoDup_cons. intros [Hx Hnd] [->|Hr]%elem_of_cons.
  - rewrite filter_cons_True by done. f_equal. apply filter_this_id. done.
  - rewrite filter_cons_False; [by apply IH|].
    intros Heq. apply Hx. rewrite Heq. by apply list_elem_of_fmap_2.
Qed.

(** X7.  What [insert] stores, [get] returns: after a successful insert
    into an existing collection, [get] on any identifier of the batch
    returns the record with that identifier, no score, and the payload
    given for it. *)
Theorem insert_then_get v self w t vectors payloads ids i vec p :
  tables (committed w) !! collection_name self = Some t →
  insertable ((zip3 ids vectors payloads).*1.*1) (row_id <$> tbl_rows t) →
  (i, vec, p) ∈ zip3 ids vectors payloads →
  ∃ w',
    insert v self vectors (Some payloads) (Some ids) w = (Return (), w')
    ∧ (get v self i w').1 = Return (Some (OutputData.mk (Some i) None p)).
Proof.
  intros Ht Hok Hin.
  destruct (insert_fresh v self w t vectors payloads ids Ht Hok) as (w' & Hi & Hc).
  exists w'. split; [done|]. rewrite get_result, Hc. cbn. rewrite lookup_insert_eq. cbn.
  destruct Hok as [Hnd Hfresh].
  rewrite filter_id_app.
  2:{ apply Hfresh. apply (list_elem_of_fmap_2 fst _ (i, vec)).
      apply (list_elem_of_fmap_2 fst _ _ Hin). }
  unfold inserted_rows.
  rewrite (filter_id_NoDup _ (Row i vec p)); [done| |].
  - rewrite <- list_fmap_compose. unfold compose. cbn.
    by rewrite <- (list_fmap_compose fst fst) in Hnd.
  - apply (list_elem_of_fmap_2 (λ tr : string * list float * option pydict,
                                  Row tr.1.1 tr.1.2 tr.2) _ _ Hin).
Qed.

(** ** delete and update, seen through get *)

Lemma delete_spec v self w t vector_id :
  tables (committed w) !! collection_name self = Some t →
  ∃ w',
    delete v self vector_id w = (Return (), w')
    ∧ committed w' =
        store (committed w) (collection_name self)
          (set_rows t (filter (λ r, row_id r ≠ vector_id) (tbl_rows t))).
Proof.
  intros Ht. unfold delete, _get_cursor.
  destruct v; step; rewrite Ht; cbn; eexists; split; reflexivity.
Qed.

Lemma filter_id_after_delete (l : list (row float)) i j :
  filter (λ r, row_id r = j) (filter (λ r, row_id r ≠ i) l)
  = if decide (j = i) then [] else filter (λ r, row_id r = j) l.
Proof.
  induction l as [|x l IH]; [by case_decide|].
  destruct (decide (row_id x = i)) as [Hx|Hx].
  - rewrite (filter_cons_False (λ r, row_id r ≠ i)) by (by intros ?). rewrite IH.
    case_decide as Hj; [done|]. rewrite filter_cons_False; [done|congruence].
  - rewrite (filter_cons_True (λ r, row_id r ≠ i)) by done.
    destruct (decide (row_id x = j)) as [Hxj|Hxj].
    + rewrite !filter_cons_True by done. rewrite IH.
      case_decide; [congruence|done].
    + rewrite !filter_cons_False by done. by rewrite IH.
Qed.

(** X8.  In an existing collection [delete] removes the record with the
    given identifier and nothing else: afterwards [get] on that identifier
    returns [None], and [get] on any other identifier returns what it
    returned before. *)
Theorem delete_then_get v self w t vector_id :
  tables (committed w) !! collection_name self = Some t →
  ∃ w',
    delete v self vector_id w = (Return (), w')
    ∧ (get v self vector_id w').1 = Return None
    ∧ ∀ j, j ≠ vector_id → (get v self j w').1 = (get v self j w).1.
Proof.
  intros Ht. destruct (delete_spec v self w t vector_id Ht) as (w' & Hd & Hc).
  exists w'. split; [done|].
  split; [|intros j Hj]; rewrite !get_result, Hc, ?Ht; cbn; rewrite lookup_insert_eq; cbn;
    rewrite filter_id_after_delete; by case_decide.
Qed.

Lemma filter_id_fmap (f : row float → row float) (l : list (row float)) j :
  (∀ r, row_id (f r) = row_id r) →
  filter (λ r, row_id r = j) (f <$> l) = f <$> filter (λ r, row_id r = j) l.
Proof.
  intros Hf. induction l as [|x l IH]; [done|]. rewrite fmap_cons.
  destruct (decide (row_id x = j)) as [Hx|Hx].
  - rewrite !filter_cons_True by (by rewrite ?Hf). by rewrite fmap_cons, IH.
  - rewrite !filter_cons_False by (by rewrite ?Hf). done.
Qed.

Lemma set_vector_id i vec (r : row float) : row_id (set_vector i vec r) = row_id r.
Proof. unfold set_vector. by case_bool_decide. Qed.

Lemma set_payload_id i p (r : row float) : row_id (set_payload i p r) = row_id r.
Proof. unfold set_payload. by case_bool_decide. Qed.

Lemma get_after_update vector_id vector payload (rows : list (row float)) j :
  plain_output <$> head (filter (λ r, row_id r = j) (updated_rows vector_id vector payload rows))
  = (λ r, if bool_decide (j = vector_id) && truthy_dict payload
          then OutputData.mk (Some (row_id r)) None payload
          else plain_output r)
    <$> head (filter (λ r, row_id r = j) rows).
Proof.
  unfold updated_rows.
  destruct (truthy_list vector), (truthy_dict payload);
    rewrite ?filter_id_fmap by (intros; by rewrite ?set_payload_id, ?set_vector_id);
    rewrite ?andb_false_r, ?andb_true_r; [| | |done].
  all: induction rows as [|x rows IH]; [done|];
    destruct (decide (row_id x = j)) as [Hx|Hx];
    [rewrite filter_cons_True by done|rewrite filter_cons_False by done; apply IH].
  all: cbn; unfold set_payload, set_vector, plain_output; cbn;
    repeat (case_bool_decide; cbn); try done; congruence.
Qed.

(** X9.  In an existing collection, after [update] with a non-empty
    payload, [get] on that identifier (when it is stored) returns the new
    payload; with no payload or an empty one [get] returns what it did
    before, whatever vector was given; and [get] on any other identifier
    is never affected. *)
Theorem update_then_get v self w t vector_id vector payload :
  tables (committed w) !! collection_name self = Some t →
  ∃ w',
    update v self vector_id vector payload w = (Return (), w')
    ∧ (truthy_dict payload = true → vector_id ∈ row_id <$> tbl_rows t →
         (get v self vector_id w').1
         = Return (Some (OutputData.mk (Some vector_id) None payload)))
    ∧ (truthy_dict payload = false →
         (get v self vector_id w').1 = (get v self vector_id w).1)
    ∧ ∀ j, j ≠ vector_id → (get v self j w').1 = (get v self j w).1.
Proof.
  intros Ht.
  destruct (update_spec v self w t vector_id vector payload Ht) as (w' & Hu & Hc & _).
  exists w'. split; [done|].
  assert (Hget : ∀ j, (get v self j w').1
                      = Return ((λ r, if bool_decide (j = vector_id) && truthy_dict payload
                                      then OutputData.mk (Some (row_id r)) None payload
                                      else plain_output r)
                                <$> head (filter (λ r, row_id r = j) (tbl_rows t)))).
  { intros j. rewrite get_result, Hc. cbn. rewrite lookup_insert_eq. cbn.
    by rewrite get_after_update. }
  split; [|split].
  - intros Hp Hin. rewrite Hget, Hp, bool_decide_eq_true_2 by done. cbn.
    apply list_elem_of_fmap in Hin as (r & Hr & Hin).
    destruct (filter (λ r, row_id r = vector_id) (tbl_rows t)) as [|x l] eqn:Hf.
    + assert (r ∈ filter (λ r, row_id r = vector_id) (tbl_rows t)) as Hrf
        by (by apply list_elem_of_filter). rewrite Hf in Hrf. by apply elem_of_nil in Hrf.
    + cbn. assert (x ∈ filter (λ r, row_id r = vector_id) (tbl_rows t)) as Hxf
        by (rewrite Hf; left). apply list_elem_of_filter in Hxf as [-> _]. done.
  - intros Hp. rewrite Hget, get_result, Ht, Hp, andb_false_r. done.
  - intros j Hj. rewrite Hget, get_result, Ht, bool_decide_eq_false_2 by done. done.
Qed.

(** ** The collection itself *)

Lemma comprehension_table_names (kvs : list (string * table float)) :
  comprehension (λ r : list (sqlval float),
     match r with
     | VStr name :: _ => Return name
     | _ :: _ => Raise (TypeError "table_name is not a string")
     | [] => Raise (IndexError "tuple index out of range")
     end) ((λ kv, [VStr kv.1]) <$> kvs)
  = Return (kvs.*1).
Proof. induction kvs as [|kv kvs IH]; [done|]. cbn. cbn in IH. by rewrite IH. Qed.

Lemma list_cols_result v w :
  (list_cols v w).1 = Return ((map_to_list (tables (committed w))).*1).
Proof.
  unfold list_cols, _get_cursor. destruct v; step; by rewrite comprehension_table_names.
Qed.

Lemma table_listed (db : database float) name :
  name ∈ (map_to_list (tables db)).*1 ↔ is_Some (tables db !! name).
Proof.
  rewrite list_elem_of_fmap. split.
  - intros ([k t] & -> & Hin). apply elem_of_map_to_list in Hin. by exists t.
  - intros [t Ht]. exists (name, t). split; [done|]. by apply elem_of_map_to_list.
Qed.

(** X10.  [list_cols] returns the names of exactly the tables of the
    database, and [delete_col] takes the collection out of them: after it
    the collection is not listed, [get] raises the engine's
    undefined-table error, every other table is untouched, and a second
    [delete_col] changes nothing. *)
Theorem delete_col_drops_collection v self w :
  ∃ w',
    delete_col v self w = (Return (), w')
    ∧ (∀ names, (list_cols v w').1 = Return names → collection_name self ∉ names)
    ∧ (∀ vector_id, (get v self vector_id w').1 = undefined_table (collection_name self))
    ∧ (∀ name, name ≠ collection_name self →
         tables (committed w') !! name = tables (committed w) !! name)
    ∧ committed (delete_col v self w').2 = committed w'.
Proof.
  assert (Hd : ∀ w0 : world float,
             ∃ w', delete_col v self w0 = (Return (), w')
                   ∧ committed w' = Database (base.delete (collection_name self)
                                                (tables (committed w0)))
                                             (extensions (committed w0))).
  { intros w0. unfold delete_col, _get_cursor.
    destruct v; step; eexists; split; reflexivity. }
  destruct (Hd w) as (w' & Hw & Hc). exists w'. split; [done|].
  split; [|split; [|split]].
  - intros names. rewrite list_cols_result. intros [= <-].
    rewrite table_listed, Hc. cbn. rewrite lookup_delete_eq. by intros [??].
  - intros vector_id. rewrite get_result, Hc. cbn. by rewrite lookup_delete_eq.
  - intros name Hne. rewrite Hc. cbn. by rewrite lookup_delete_ne.
  - destruct (Hd w') as (w'' & Hw' & Hc'). rewrite Hw'. cbn. rewrite Hc', Hc. cbn.
    f_equal. apply delete_id, lookup_delete_eq.
Qed.

Lemma create_col_committed v self w :
  create_col v self w = (Return (), (create_col v self w).2)
  ∧ committed (create_col v self w).2 = provisioned self (committed w).
Proof.
  unfold create_col, _get_cursor, provisioned, with_index, with_table,
    with_vector_extension.
  destruct v; step;
    destruct (tables (committed w) !! collection_name self) eqn:Et; cbn -[String.append];
    rewrite ?lookup_insert_eq, ?Et;
    destruct (use_diskann self), (embedding_model_dims self <? 2000);
    cbn -[String.append]; rewrite ?lookup_insert_eq, ?Et;
    repeat (case_bool_decide; cbn -[String.append]);
    try (destruct (use_hnsw self); cbn -[String.append]; rewrite ?lookup_insert_eq, ?Et);
    repeat (case_bool_decide; cbn -[String.append]);
    done.
Qed.

Lemma with_index_extensions db tbl idx m :
  extensions (with_index db tbl idx m) = extensions db.
Proof. unfold with_index. destruct (tables db !! tbl); [case_bool_decide|]; done. Qed.

Lemma with_index_other db tbl idx m name :
  name ≠ tbl → tables (with_index db tbl idx m) !! name = tables db !! name.
Proof.
  intros Hne. unfold with_index. destruct (tables db !! tbl); [case_bool_decide|]; try done.
  cbn. by rewrite lookup_insert_ne.
Qed.

Lemma with_index_table db tbl idx m t :
  tables db !! tbl = Some t →
  ∃ t', tables (with_index db tbl idx m) !! tbl = Some t'
        ∧ tbl_rows t' = tbl_rows t ∧ tbl_dims t' = tbl_dims t
        ∧ idx ∈ (tbl_indexes t').*1.
Proof.
  intros Ht. unfold with_index. rewrite Ht. case_bool_decide.
  - by exists t.
  - cbn. rewrite lookup_insert_eq. eexists. split; [done|]. cbn.
    split; [done|]. split; [done|]. rewrite fmap_app. cbn. set_solver.
Qed.

Lemma with_index_idem db tbl idx m :
  with_index (with_index db tbl idx m) tbl idx m = with_index db tbl idx m.
Proof.
  destruct (tables db !! tbl) as [t|] eqn:Ht.
  - destruct (with_index_table db tbl idx m t Ht) as (t' & Ht' & _ & _ & Hin).
    unfold with_index at 1. rewrite Ht'. by rewrite bool_decide_eq_true_2.
  - unfold with_index. by rewrite Ht, Ht.
Qed.

Lemma with_vector_extension_idem (d : database float) :
  "vector" ∈ extensions d → with_vector_extension d = d.
Proof.
  intros Hv. unfold with_vector_extension. rewrite bool_decide_eq_true_2 by done.
  by destruct d.
Qed.

Lemma with_table_idem self (d : database float) :
  is_Some (tables d !! collection_name self) → with_table self d = d.
Proof. intros [t Ht]. unfold with_table. by rewrite Ht. Qed.

Lemma with_table_table self (d : database float) :
  ∃ t, tables (with_table self d) !! collection_name self = Some t
       ∧ tbl_rows t = default [] (tbl_rows <$> tables d !! collection_name self)
       ∧ tbl_dims t = default (embedding_model_dims self)
                        (tbl_dims <$> tables d !! collection_name self).
Proof.
  unfold with_table. destruct (tables d !! collection_name self) as [t|] eqn:E; cbn.
  - exists t. by rewrite E.
  - rewrite lookup_insert_eq. by eexists.
Qed.

Lemma with_table_extensions self (d : database float) :
  extensions (with_table self d) = extensions d.
Proof. unfold with_table. by destruct (tables d !! collection_name self). Qed.

Lemma with_table_other self (d : database float) name :
  name ≠ collection_name self → tables (with_table self d) !! name = tables d !! name.
Proof.
  intros Hne. unfold with_table. destruct (tables d !! collection_name self); [done|].
  cbn. by rewrite lookup_insert_ne.
Qed.

Lemma vector_extension_present (d : database float) :
  "vector" ∈ extensions (with_vector_extension d).
Proof. unfold with_vector_extension. cbn. case_bool_decide; [done|]. set_solver. Qed.

Lemma provisioned_idem self db : provisioned self (provisioned self db) = provisioned self db.
Proof.
  unfold provisioned.
  set (db2 := with_table self (with_vector_extension db)).
  assert (Hv : "vector" ∈ extensions db2).
  { unfold db2. rewrite with_table_extensions. apply vector_extension_present. }
  assert (Ht2 : is_Some (tables db2 !! collection_name self)).
  { destruct (with_table_table self (with_vector_extension db)) as (t & Ht & _). by exists t. }
  assert (Hfix : ∀ d : database float, extensions d = extensions db2 →
            is_Some (tables d !! collection_name self) →
            with_table self (with_vector_extension d) = d).
  { intros d Hd Ht. rewrite with_vector_extension_idem by (by rewrite Hd).
    by apply with_table_idem. }
  assert (Hwi : ∀ idx m, is_Some (tables (with_index db2 (collection_name self) idx m)
                                    !! collection_name self)).
  { intros idx m. destruct Ht2 as [t Ht].
    destruct (with_index_table db2 _ idx m t Ht) as (t' & -> & _). done. }
  destruct (use_diskann self && (embedding_model_dims self <? 2000)).
  - destruct (bool_decide ("vectorscale" ∈ extensions db2)) eqn:Hs.
    + rewrite Hfix by (rewrite ?with_index_extensions; done).
      rewrite with_index_extensions, Hs. apply with_index_idem.
    + rewrite Hfix by done. by rewrite Hs.
  - destruct (use_hnsw self).
    + rewrite Hfix; rewrite ?with_index_extensions; try done. apply with_index_idem.
    + by rewrite Hfix.
Qed.

Lemma provisioned_table self db :
  ∃ t', tables (provisioned self db) !! collection_name self = Some t'
        ∧ tbl_rows t' = default [] (tbl_rows <$> tables db !! collection_name self)
        ∧ tbl_dims t' = default (embedding_model_dims self)
                          (tbl_dims <$> tables db !! collection_name self).
Proof.
  unfold provisioned.
  set (db2 := with_table self (with_vector_extension db)).
  destruct (with_table_table self (with_vector_extension db)) as (t & Ht & Hr & Hd).
  fold db2 in Ht. cbn in Hr, Hd.
  assert (Hwi : ∀ idx m, ∃ t', tables (with_index db2 (collection_name self) idx m)
                                 !! collection_name self = Some t'
                               ∧ tbl_rows t' = tbl_rows t ∧ tbl_dims t' = tbl_dims t).
  { intros idx m. destruct (with_index_table db2 _ idx m t Ht) as (t' & ? & ? & ? & _).
    by exists t'. }
  destruct (use_diskann self && (embedding_model_dims self <? 2000));
    [case_bool_decide|destruct (use_hnsw self)];
    try (exists t; by rewrite Ht);
    edestruct Hwi as (t' & Ht' & Hr' & Hd'); exists t';
    (split; [exact Ht'|]); by rewrite Hr', Hd'.
Qed.

Lemma provisioned_other self db name :
  name ≠ collection_name self → tables (provisioned self db) !! name = tables db !! name.
Proof.
  intros Hne. unfold provisioned.
  destruct (use_diskann self && (embedding_model_dims self <? 2000));
    [case_bool_decide|destruct (use_hnsw self)];
    rewrite ?with_index_other by done; by rewrite with_table_other.
Qed.

(** X11.  [create_col] never loses data: whenever it returns, the
    collection exists with the rows it had before (none when it is new)
    and with the dimensionality it already had (the configured one when it
    is new), every other table is untouched, and a second call that
    returns changes nothing. *)
Theorem create_col_keeps_rows v self w w' :
  create_col v self w = (Return (), w') →
  ∃ t',
    tables (committed w') !! collection_name self = Some t'
    ∧ tbl_rows t' = default [] (stored self w)
    ∧ tbl_dims t' = default (embedding_model_dims self)
                      (tbl_dims <$> tables (committed w) !! collection_name self)
    ∧ (∀ name, name ≠ collection_name self →
         tables (committed w') !! name = tables (committed w) !! name)
    ∧ ∀ w'', create_col v self w' = (Return (), w'') → committed w'' = committed w'.
Proof.
  intros Hrun.
  destruct (create_col_committed v self w) as [_ Hc]. rewrite Hrun in Hc. cbn in Hc.
  destruct (provisioned_table self (committed w)) as (t' & Ht' & Hrows & Hdims).
  exists t'. rewrite Hc.
  split; [done|]. split; [done|]. split; [done|].
  split; [intros; by apply provisioned_other|].
  intros w'' Hrun'.
  destruct (create_col_committed v self w') as [_ Hc']. rewrite Hrun' in Hc'. cbn in Hc'.
  by rewrite Hc', Hc, provisioned_idem.
Qed.

Lemma list_cols_run v w :
  ∃ w1, list_cols v w = (Return ((map_to_list (tables (committed w))).*1), w1)
        ∧ committed w1 = committed w
        ∧ issued (new_events w w1) = [SELECT_tables].
Proof.
  unfold list_cols, _get_cursor, new_events.
  destruct v; step; rewrite comprehension_table_names; cbn; eexists;
    (split; [reflexivity|]); cbn; rewrite <- ?app_assoc, ?drop_app_length; by cbn.
Qed.

(** X12.  The constructor provisions the collection only when the
    catalogue does not list it: when [list_cols] returns a list that holds
    the collection's name, the constructor has issued that one catalogue
    query and no DDL, and the committed database is as it was; otherwise
    it goes on with [create_col]. *)
Theorem init_provisions_once v self w names w1 :
  list_cols v w = (Return names, w1) →
  (collection_name self ∈ names →
     init v self w = (Return (), w1)
     ∧ committed w1 = committed w
     ∧ issued (new_events w w1) = [SELECT_tables])
  ∧ (collection_name self ∉ names → init v self w = create_col v self w1).
Proof.
  intros Hl. destruct (list_cols_run v w) as (w0 & Hl0 & Hc1 & Hi1).
  rewrite Hl in Hl0. injection Hl0 as -> <-.
  unfold init, mbind, M_bind. rewrite Hl.
  split; intros Hin.
  - by rewrite bool_decide_eq_true_2.
  - by rewrite bool_decide_eq_false_2.
Qed.

(** ** What search and list return *)

Lemma apply_limit_sub {A} (lim : param float) (l rs : list A) :
  apply_limit lim l = Return rs → (∀ x, x ∈ rs → x ∈ l) ∧ (lim = PNone → rs = l).
Proof.
  destruct lim as [|n| | |]; cbn; try done.
  - destruct (n <? 0); [done|]. destruct (2 ^ 63 <=? n); [done|].
    intros [= <-]. split; [|done]. intros x Hx. by eapply subseteq_take.
  - intros [= <-]. done.
Qed.

(** X13.  Whenever [search] returns, every result is a stored row that
    satisfies all the filter entries, carrying that row's identifier, its
    distance to the query vector as score and its payload; and without a
    limit the results are exactly the qualifying rows, each once. *)
Theorem search_returns_qualifying_rows v self query q limit filters w rs w' :
  search v self query q limit filters w = (Return rs, w') →
  ∃ t,
    tables (committed w) !! collection_name self = Some t
    ∧ (∀ o, o ∈ rs →
         ∃ r, r ∈ tbl_rows t ∧ qualifies (filter_pairs filters) r = true
              ∧ o = OutputData.mk (Some (row_id r))
                      (Some (cosine_distance (row_vector r) q)) (row_payload r))
    ∧ (limit = None →
         rs ≡ₚ (λ r, OutputData.mk (Some (row_id r))
                       (Some (cosine_distance (row_vector r) q)) (row_payload r))
               <$> filter (λ r, qualifies (filter_pairs filters) r) (tbl_rows t)).
Proof.
  intros Hs. pose proof (search_result v self query q limit filters w) as Hr.
  rewrite Hs in Hr. cbn in Hr.
  destruct (tables (committed w) !! collection_name self) as [t|]; [|done].
  exists t. split; [done|].
  destruct (apply_limit (limit_param limit) (ranked q filters (tbl_rows t)))
    as [ds|e] eqn:Hl; [|done].
  injection Hr as ->. apply apply_limit_sub in Hl as [Hsub Hall].
  assert (Hranked : ranked q filters (tbl_rows t)
                    ≡ₚ distance_row q <$> filter (λ r, qualifies (filter_pairs filters) r)
                                            (tbl_rows t))
    by apply order_by_perm.
  split.
  - intros o (dr & -> & Hdr)%list_elem_of_fmap. apply Hsub in Hdr. rewrite Hranked in Hdr.
    apply list_elem_of_fmap in Hdr as (r & -> & Hr). apply list_elem_of_filter in Hr as [Hq Hr].
    exists r. split; [done|]. split; [by apply Is_true_true|done].
  - intros ->. rewrite Hall by done. rewrite Hranked, <- list_fmap_compose. done.
Qed.

Lemma comprehension_select_rows (rs : list (row float)) :
  comprehension record_output (select_row <$> rs) = Return (plain_output <$> rs).
Proof. induction rs as [|r rs IH]; [done|]. cbn. cbn in IH. by rewrite IH. Qed.

Lemma list_result v self filters limit w :
  (list_ v self filters limit w).1
  = match tables (committed w) !! collection_name self with
    | None => undefined_table (collection_name self)
    | Some t =>
        match apply_limit (limit_param (float := float) limit)
                (filter (λ r, qualifies (filter_pairs filters) r) (tbl_rows t)) with
        | Return rs => Return [plain_output <$> rs]
        | Raise e => Raise e
        end
    end.
Proof.
  unfold list_. pose proof (filter_clause_spec filters) as Hc.
  rewrite filter_loop_spec in *. cbn [fst] in Hc. rewrite Hc. clear Hc.
  unfold _get_cursor.
  destruct v; step;
    (destruct (tables (committed w) !! collection_name self) as [t|]; [|done]);
    rewrite unsnoc_snoc, bind_clause_spec;
    match goal with
    | |- context [apply_limit ?a ?b] => destruct (apply_limit a b) as [rs|e]
    end; cbn; by rewrite ?comprehension_select_rows.
Qed.

(** X14.  In an existing collection [list] returns one list.  Every
    record in it has the identifier and the payload of a stored row that
    satisfies the filter entries, and no score; no row is returned twice.
    With a limit [n] (a bigint that is not negative) the list holds [n]
    records, or all the qualifying rows when there are fewer; with
    [limit=None] it holds all of them.  The statement has no [ORDER BY]:
    which rows a limit keeps, and in which order they come, is the
    engine's choice. *)
Theorem list_returns_qualifying_rows v self filters limit w t :
  tables (committed w) !! collection_name self = Some t →
  (∀ n, limit = Some n → 0 ≤ n < 2 ^ 63) →
  ∃ rs,
    (list_ v self filters limit w).1 = Return [plain_output <$> rs]
    ∧ rs ⊆+ filter (λ r, qualifies (filter_pairs filters) r) (tbl_rows t)
    ∧ length rs
      = match limit with
        | Some n => (Z.to_nat n `min`
                     length (filter (λ r, qualifies (filter_pairs filters) r) (tbl_rows t)))%nat
        | None => length (filter (λ r, qualifies (filter_pairs filters) r) (tbl_rows t))
        end.
Proof.
  intros Ht Hlim. rewrite list_result, Ht. destruct limit as [n|]; cbn.
  - destruct (Hlim n eq_refl) as [H0 H63].
    destruct (Z.ltb_spec n 0); [lia|]. destruct (Z.leb_spec (2 ^ 63) n); [lia|].
    eexists. split; [done|]. split; [|by rewrite length_take].
    apply sublist_submseteq, sublist_take.
  - eexists. split; [done|]. done.
Qed.

(** ** Filters compare text *)

Lemma qualifies_entry (fs : filter_dict) k x r :
  (k, x) ∈ fs →
  qualifies (filter_pairs (Some fs)) r = true →
  payload_field_text (row_payload r) k = Some (py_str x).
Proof.
  intros Hin. unfold qualifies, filter_pairs. rewrite forallb_forall.
  intros Hall. specialize (Hall (k, py_str x)). cbn in Hall.
  apply bool_decide_eq_true in Hall; [done|].
  apply list_elem_of_In. by apply (list_elem_of_fmap_2 (λ kv, (kv.1, py_str kv.2)) _ (k, x)).
Qed.

(** X15.  Every filter entry compares the text of the payload field with
    [str(value)]: every record [list] returns has the field of every
    entry, and the field's text ([payload->>key]) is [str(value)].  So a
    Python boolean in a filter never selects a record whose field is a
    JSON boolean ([str(True)] is not the text of [true]), and no filter
    selects a record whose field is null. *)
Theorem filter_compares_text v self (fs : filter_dict) limit w rss :
  (list_ v self (Some fs) limit w).1 = Return rss →
  ∀ k x rs o, (k, x) ∈ fs → rs ∈ rss → o ∈ rs →
    ∃ m val,
      OutputData.payload o = Some m ∧ m !! k = Some val
      ∧ jsonb_text val = Some (py_str x)
      ∧ val ≠ PyNone
      ∧ (∀ b b', x = PyBool b → val ≠ PyBool b').
Proof.
  rewrite list_result.
  destruct (tables (committed w) !! collection_name self) as [t|]; [|done].
  destruct (apply_limit _ _) as [rows|e] eqn:Hl; [|done].
  intros [= <-] k x rs o Hin ->%list_elem_of_singleton (r & -> & Hr)%list_elem_of_fmap.
  apply apply_limit_sub in Hl as [Hsub _]. apply Hsub, list_elem_of_filter in Hr as [Hq _].
  apply Is_true_true, (qualifies_entry fs k x r Hin) in Hq. cbn.
  unfold payload_field_text in Hq.
  destruct (row_payload r) as [m|]; [|done]. cbn in Hq.
  destruct (m !! k) as [val|] eqn:Hk; [|done]. cbn in Hq.
  exists m, val. split; [done|]. split; [done|]. split; [done|].
  split; [by intros ->|]. intros b b' -> ->. by destruct b, b'.
Qed.

(** ** A collection that is not there *)

(** X16.  On a database without the collection, [get], [search], [list],
    [delete] and [col_info] raise the engine's undefined-table error, and
    so do [insert] as soon as it has a tuple to write and [update] as soon
    as it has a vector or a payload to write; [insert] with nothing to
    write (one of the three lists is empty) and [update] with nothing to
    write return normally, without a statement. *)
Theorem missing_collection_raises v self w :
  tables (committed w) !! collection_name self = None →
  (∀ vector_id, (get v self vector_id w).1 = undefined_table (collection_name self))
  ∧ (∀ query q limit filters,
       (search v self query q limit filters w).1 = undefined_table (collection_name self))
  ∧ (∀ filters limit,
       (list_ v self filters limit w).1 = undefined_table (collection_name self))
  ∧ (∀ vector_id, (delete v self vector_id w).1 = undefined_table (collection_name self))
  ∧ (col_info v self w).1 = undefined_table (collection_name self)
  ∧ (∀ vectors payloads ids,
       zip3 ids vectors payloads ≠ [] →
       (insert v self vectors (Some payloads) (Some ids) w).1
       = undefined_table (collection_name self))
  ∧ (∀ vectors payloads ids,
       zip3 ids vectors payloads = [] →
       (insert v self vectors (Some payloads) (Some ids) w).1 = Return ())
  ∧ (∀ vector_id vector payload,
       truthy_list vector || truthy_dict payload = true →
       (update v self vector_id vector payload w).1 = undefined_table (collection_name self))
  ∧ (∀ vector_id vector payload,
       truthy_list vector || truthy_dict payload = false →
       (update v self vector_id vector payload w).1 = Return ()
       ∧ issued (new_events w (update v self vector_id vector payload w).2) = []).
Proof.
  intros Ht.
  split; [intros; by rewrite get_result, Ht|].
  split; [intros; by rewrite search_result, Ht|].
  split; [intros; by rewrite list_result, Ht|].
  split; [intros; unfold delete, _get_cursor; destruct v; step; by rewrite Ht|].
  split; [unfold col_info, _get_cursor; destruct v; step; by rewrite Ht|].
  split; [intros vectors payloads ids Hne|].
  { destruct (insert_run v self w vectors payloads ids) as (w' & -> & _).
    rewrite insert_tuples_missing; [done|done|]. by intros ?%fmap_nil_inv. }
  split; [intros vectors payloads ids Hnil|].
  { destruct (insert_run v self w vectors payloads ids) as (w' & -> & _). by rewrite Hnil. }
  split; [intros vector_id vector payload Hw|intros vector_id vector payload Hw].
  - unfold update, _get_cursor.
    destruct v, (truthy_list vector), (truthy_dict payload); try done; step; by rewrite Ht.
  - split.
    + unfold update, _get_cursor.
      by destruct v, (truthy_list vector), (truthy_dict payload).
    + unfold update, _get_cursor, new_events.
      destruct v, (truthy_list vector), (truthy_dict payload); try done; step;
        rewrite <- ?app_assoc, ?drop_app_length; done.
Qed.

(** ** The facade and what is not an [Exception] *)

(** X19.  On psycopg2 the facade rolls back only for an [Exception]: when
    the block is left by another [BaseException] (a [KeyboardInterrupt])
    the facade neither commits nor rolls back, and still closes the cursor
    and returns the connection, so the transaction's changes are left to
    the pool; on psycopg3 the connection scope rolls back in that case
    too. *)
Theorem base_exception_skips_rollback {A} (commit : bool) (block : cursor → @M float A)
    w e wb :
  block Cursor (cursor_open (getconn w)) = (Raise e, wb) →
  is_Exception e = false →
  (∃ w2, _get_cursor V2 commit block w = (Raise e, w2)
         ∧ trace w2 = trace wb ++ [CursorClose; PutConn]
         ∧ committed w2 = committed wb ∧ working w2 = working wb)
  ∧ (∃ w3, _get_cursor V3 commit block w = (Raise e, w3)
           ∧ trace w3 = trace wb ++ [CursorClose; Rollback; PutConn]
           ∧ committed w3 = committed wb ∧ working w3 = committed wb).
Proof.
  intros Hb He. unfold _get_cursor. rewrite Hb, He.
  split; eexists; (split; [reflexivity|]); cbn; by rewrite <- ?app_assoc.
Qed.

End Operations.

(** * Importing the module *)

(** X17.  The psycopg2 fallback is never selected: importing the module
    yields [PSYCOPG_VERSION = 3] exactly when both psycopg and
    psycopg_pool are installed, and raises otherwise, also when psycopg2
    is installed ([ModuleNotFoundError] at line 6 without psycopg,
    [NameError] on [logger] at line 17 without psycopg_pool). *)
Theorem import_never_selects_psycopg2 env :
  import_pgvector env ≠ inr V2
  ∧ (import_pgvector env = inr V3 ↔ has_psycopg env = true ∧ has_psycopg_pool env = true)
  ∧ (has_psycopg env = false → import_pgvector env = inl (ModuleNotFoundError "psycopg"))
  ∧ (has_psycopg env = true → has_psycopg_pool env = false →
       import_pgvector env = inl (NameError "logger")).
Proof.
  unfold import_pgvector. destruct env as [[] [] []]; cbn; repeat split; try done;
    by intros [??].
Qed.

(** * Closed instances *)

Import Examples.

(** C3 (the code does not do what the claim says).  After the three
    records a, b, c are inserted, [list(limit=10)] returns a list of
    length one whose only element is the list of the three records, with
    either driver. *)
Theorem list_returns_nested_list :
  ∀ v, (list_ v mem0 None (Some 10) (three_records v)).1
       = Return [[OutputData.mk (Some "a") None (Some payload_a);
                  OutputData.mk (Some "b") None (Some payload_b);
                  OutputData.mk (Some "c") None (Some payload_c)]].
Proof. intros []; vm_compute; reflexivity. Qed.

(** C2, counterexample.  DiskANN and HNSW both requested, 1536
    dimensions, vectorscale not installed: [create_col] creates no index,
    where the strategy of the specification falls back to HNSW. *)
Lemma create_col_no_hnsw_fallback :
  use_diskann mem0_diskann = true ∧ use_hnsw mem0_diskann = true
  ∧ embedding_model_dims mem0_diskann < 2000
  ∧ created_indexes (new_events (fresh empty_db)
                       (create_col V3 mem0_diskann (fresh empty_db)).2) = []
  ∧ created_indexes (new_events (fresh empty_db)
                       (create_col V3 mem0_diskann (fresh empty_db)).2)
    ≠ spec_index_strategy mem0_diskann
        (bool_decide ("vectorscale" ∈ extensions empty_db)).
Proof. repeat split; try done; vm_compute; discriminate. Qed.

(** C4, counterexample.  With psycopg3 an acquisition that did not ask
    for a commit commits all the same, and so does the read-only
    [get]. *)
Lemma psycopg3_commits_unrequested :
  new_events (fresh empty_db)
    (_get_cursor V3 false (λ _, mret ()) (fresh empty_db)).2
  = [GetConn; CursorOpen; CursorClose; Commit; PutConn]
  ∧ (∃ o, (get V3 mem0 "a" (three_records V3)).1 = Return o)
  ∧ commits (new_events (three_records V3) (get V3 mem0 "a" (three_records V3)).2) = 1%nat
  ∧ ¬ no_commit (get V3 mem0 "a").
Proof.
  split; [by vm_compute|]. split; [by eexists; vm_compute|]. split; [by vm_compute|].
  intros H. destruct (H (three_records V3)) as [Hc _]. vm_compute in Hc. discriminate.
Qed.

(** Witnesses: the theorems above at concrete inputs. *)

Lemma get_cursor_commit_discipline_witness :
  ∃ w2, _get_cursor V2 false (λ _, mret ()) (fresh empty_db) = (Return (), w2)
        ∧ trace w2 = [GetConn; CursorOpen; CursorClose; PutConn]
        ∧ committed w2 = empty_db.
Proof.
  destruct (get_cursor_commit_discipline (A := ()) false (λ _, mret ()) (fresh empty_db) ()
              (cursor_open (getconn (fresh empty_db))) mem0 "q" [] None None "a" eq_refl)
    as [(w2 & H1 & H2 & H3) _].
  exists w2. split; [exact H1|]. split; [exact H2|exact H3].
Defined.

Lemma get_cursor_exit_witness :
  ∃ w' mid,
    _get_cursor V2 true (λ _, raise (A := ()) (DatabaseError "deadlock detected"))
      (fresh empty_db)
    = (Raise (DatabaseError "deadlock detected"), w')
    ∧ trace w' = [GetConn; CursorOpen] ++ mid ++ [PutConn]
    ∧ borrowed w' = 0%nat
    ∧ Rollback ∈ mid.
Proof.
  destruct (get_cursor_exit (A := ()) V2 true
              (λ _, raise (DatabaseError "deadlock detected")) (fresh empty_db)
              (Raise (DatabaseError "deadlock detected"))
              (cursor_open (getconn (fresh empty_db))) eq_refl)
    as (w' & mid & H1 & H2 & H3 & H4).
  destruct (H4 _ eq_refl eq_refl) as [Hr _].
  exists w', mid. split; [exact H1|]. split; [exact H2|]. split; [exact H3|exact Hr].
Defined.

Lemma three_records_table v :
  tables (committed (three_records v)) !! collection_name mem0 = Some mem0_table.
Proof. destruct v; vm_compute; reflexivity. Defined.





Lemma update_only_given_fields_witness :
  ∃ w' t',
    update V2 mem0 "a" None (Some payload_b) (three_records V2) = (Return (), w')
    ∧ tables (committed w') !! collection_name mem0 = Some t'
    ∧ Forall2 (only_payload_changed "a" payload_b) (tbl_rows mem0_table) (tbl_rows t').
Proof.
  destruct (update_only_given_fields V2 mem0 (three_records V2) mem0_table "a"
              (three_records_table V2)) as [H _].
  exact (H payload_b).
Defined.


Lemma update_truthiness_witness :
  update V3 mem0 "a" (Some []) (Some ∅) (three_records V3)
  = update V3 mem0 "a" None None (three_records V3)
  ∧ ∃ t, tables (committed (three_records V3)) !! "mem0" = Some t
         ∧ Forall2 keeps_nonempty (tbl_rows t) (tbl_rows mem0_table).
Proof.
  destruct (update_truthiness V3 mem0 (three_records V3) "a" (Some []) (Some ∅))
    as (H1 & H2 & H3).
  split; [by rewrite H1|].
  apply (H3 "mem0" mem0_table). vm_compute. reflexivity.
Defined.

(** Witnesses for the operations together. *)

Lemma d_e_insertable :
  insertable ((zip3 ["d"; "e"] [[0;0;0;1]; [1;1;0;0]; [9;9;9;9]]
                 [Some payload_a; None]).*1.*1)
             (row_id <$> tbl_rows mem0_table).
Proof.
  split; cbn.
  - repeat (apply NoDup_cons; split; [set_solver|]). apply NoDup_nil_2.
  - intros i Hi. set_solver.
Defined.

Lemma insert_appends_zipped_rows_witness :
  ∃ w',
    insert V3 mem0 [[0;0;0;1]; [1;1;0;0]; [9;9;9;9]]
      (Some [Some payload_a; None]) (Some ["d"; "e"]) (three_records V3) = (Return (), w')
    ∧ stored mem0 w'
      = Some (tbl_rows mem0_table
              ++ [Row "d" [0;0;0;1] (Some payload_a); Row "e" [1;1;0;0] None]).
Proof.
  destruct (insert_appends_zipped_rows V3 mem0 (three_records V3) mem0_table
              [[0;0;0;1]; [1;1;0;0]; [9;9;9;9]] [Some payload_a; None] ["d"; "e"]
              (three_records_table V3) d_e_insertable)
    as (w' & H1 & H2 & _).
  exists w'. split; [exact H1|exact H2].
Defined.

Lemma insert_rejects_duplicates_witness :
  ∃ w',
    insert V2 mem0 [[0;0;0;1]; [1;1;0;0]] (Some [None; None]) (Some ["d"; "a"])
      (three_records V2)
    = (Raise (DatabaseError "duplicate key value violates unique constraint"), w')
    ∧ committed w' = committed (three_records V2)
    ∧ working w' = committed (three_records V2).
Proof.
  apply (insert_rejects_duplicates V2 mem0 (three_records V2) mem0_table
           [[0;0;0;1]; [1;1;0;0]] [None; None] ["d"; "a"] (three_records_table V2)).
  intros [_ H]. apply (H "a"); cbn; set_solver.
Defined.

Lemma insert_then_get_witness :
  ∃ w',
    insert V3 mem0 [[0;0;0;1]; [1;1;0;0]; [9;9;9;9]] (Some [Some payload_a; None])
      (Some ["d"; "e"]) (three_records V3) = (Return (), w')
    ∧ (get V3 mem0 "e" w').1 = Return (Some (OutputData.mk (Some "e") None None)).
Proof.
  apply (insert_then_get V3 mem0 (three_records V3) mem0_table
           [[0;0;0;1]; [1;1;0;0]; [9;9;9;9]] [Some payload_a; None] ["d"; "e"]
           "e" [1;1;0;0] None (three_records_table V3) d_e_insertable).
  cbn. right. left.
Defined.

Lemma delete_then_get_witness :
  ∃ w',
    delete V2 mem0 "b" (three_records V2) = (Return (), w')
    ∧ (get V2 mem0 "b" w').1 = Return None
    ∧ ∀ j, j ≠ "b" → (get V2 mem0 j w').1 = (get V2 mem0 j (three_records V2)).1.
Proof.
  exact (delete_then_get V2 mem0 (three_records V2) mem0_table "b" (three_records_table V2)).
Defined.

Lemma update_then_get_witness :
  ∃ w',
    update V3 mem0 "a" None (Some payload_c) (three_records V3) = (Return (), w')
    ∧ (get V3 mem0 "a" w').1
      = Return (Some (OutputData.mk (Some "a") None (Some payload_c))).
Proof.
  destruct (update_then_get V3 mem0 (three_records V3) mem0_table "a" None (Some payload_c)
              (three_records_table V3)) as (w' & H1 & H2 & _).
  exists w'. split; [exact H1|]. apply H2.
  - vm_compute. reflexivity.
  - cbn. left.
Defined.

Lemma search_k_a :
  search V3 mem0 "q" [1;0;0;0] (Some 5) (Some [("k", PyStr "a")]) (three_records V3)
  = (Return [OutputData.mk (Some "a") (Some 0) (Some payload_a)],
     (search V3 mem0 "q" [1;0;0;0] (Some 5) (Some [("k", PyStr "a")])
        (three_records V3)).2).
Proof.
  assert (H : (search V3 mem0 "q" [1;0;0;0] (Some 5) (Some [("k", PyStr "a")])
                 (three_records V3)).1
              = Return [OutputData.mk (Some "a") (Some 0) (Some payload_a)])
    by (vm_compute; reflexivity).
  destruct (search V3 mem0 "q" [1;0;0;0] (Some 5) (Some [("k", PyStr "a")])
              (three_records V3)) as [r w'].
  cbn in *. by subst.
Defined.

Lemma search_returns_qualifying_rows_witness :
  ∃ t,
    tables (committed (three_records V3)) !! "mem0" = Some t
    ∧ ∀ o, o ∈ [OutputData.mk (Some "a") (Some 0) (Some payload_a)] →
        ∃ r, r ∈ tbl_rows t ∧ qualifies (filter_pairs (Some [("k", PyStr "a")])) r = true
             ∧ o = OutputData.mk (Some (row_id r))
                     (Some (cosine_distance (row_vector r) [1;0;0;0])) (row_payload r).
Proof.
  destruct (search_returns_qualifying_rows V3 mem0 "q" [1;0;0;0] (Some 5)
              (Some [("k", PyStr "a")]) (three_records V3)
              [OutputData.mk (Some "a") (Some 0) (Some payload_a)]
              (search V3 mem0 "q" [1;0;0;0] (Some 5) (Some [("k", PyStr "a")])
                 (three_records V3)).2
              search_k_a) as (t & H1 & H2 & _).
  exists t. split; [exact H1|exact H2].
Defined.

Lemma list_returns_qualifying_rows_witness :
  ∃ rs,
    (list_ V2 mem0 None (Some 2) (three_records V2)).1 = Return [plain_output <$> rs]
    ∧ rs ⊆+ filter (λ r, qualifies (filter_pairs None) r) (tbl_rows mem0_table)
    ∧ length rs = 2%nat.
Proof.
  apply (list_returns_qualifying_rows V2 mem0 None (Some 2) (three_records V2) mem0_table
           (three_records_table V2)).
  intros n [= <-]. lia.
Defined.

Lemma filter_compares_text_witness :
  ∃ m val,
    Some payload_a = Some m ∧ m !! "k" = Some val
    ∧ jsonb_text val = Some (py_str (PyStr "a")).
Proof.
  destruct (filter_compares_text V3 mem0 [("k", PyStr "a")] (Some 10) (three_records V3)
              [[OutputData.mk (Some "a") None (Some payload_a)]]
              ltac:(vm_compute; reflexivity)
              "k" (PyStr "a")
              [OutputData.mk (Some "a") None (Some payload_a)]
              (OutputData.mk (Some "a") None (Some payload_a))
              ltac:(left) ltac:(left) ltac:(left)) as (m & val & H1 & H2 & H3 & _).
  exists m, val. split; [exact H1|]. split; [exact H2|exact H3].
Defined.

Lemma missing_collection_raises_witness :
  (get V3 mem0 "a" (fresh empty_db)).1 = undefined_table "mem0"
  ∧ (insert V3 mem0 [[1;0;0;0]] (Some [None]) (Some ["a"]) (fresh empty_db)).1
    = undefined_table "mem0"
  ∧ (insert V3 mem0 [] (Some [None]) (Some ["a"]) (fresh empty_db)).1 = Return ()
  ∧ (update V3 mem0 "a" None None (fresh empty_db)).1 = Return ().
Proof.
  destruct (missing_collection_raises V3 mem0 (fresh empty_db) eq_refl)
    as (Hg & _ & _ & _ & _ & Hi & Hn & _ & Hu).
  split; [exact (Hg "a")|].
  split; [exact (Hi [[1;0;0;0]] [None] ["a"] ltac:(discriminate))|].
  split; [exact (Hn [] [None] ["a"] eq_refl)|].
  exact (proj1 (Hu "a" None None eq_refl)).
Defined.

Lemma base_exception_skips_rollback_witness :
  ∃ w2,
    _get_cursor V2 true (λ _, raise (A := ()) KeyboardInterrupt) (fresh empty_db)
    = (Raise KeyboardInterrupt, w2)
    ∧ trace w2 = [GetConn; CursorOpen; CursorClose; PutConn].
Proof.
  destruct (base_exception_skips_rollback (A := ()) true (λ _, raise KeyboardInterrupt)
              (fresh empty_db) KeyboardInterrupt (cursor_open (getconn (fresh empty_db)))
              eq_refl eq_refl) as [(w2 & H1 & H2 & _) _].
  exists w2. split; [exact H1|exact H2].
Defined.

(** A batch of two: [d] is new, [a] is stored.  The engine accepts the
    first tuple and rejects the second. *)
Lemma executemany_keeps_accepted_tuples :
  tbl_rows <$> tables (working (executemany Cursor (INSERT "mem0" "(%s, %s, %s)")
                                  [[PStr "d"; PVec [0;0;0;1]; PJson None];
                                   [PStr "a"; PVec [1;1;0;0]; PJson None]]
                                  (three_records V3)).2) !! "mem0"
  = Some (tbl_rows mem0_table ++ [Row "d" [0;0;0;1] None]).
Proof. vm_compute. reflexivity. Qed.

Lemma writes_are_all_or_nothing_witness :
  ∃ e w',
    insert V3 mem0 [[0;0;0;1]; [1;1;0;0]] (Some [None; None]) (Some ["d"; "a"])
      (three_records V3) = (Raise e, w')
    ∧ committed w' = committed (three_records V3).
Proof.
  destruct (insert V3 mem0 [[0;0;0;1]; [1;1;0;0]] (Some [None; None]) (Some ["d"; "a"])
              (three_records V3)) as [r w'] eqn:Hi.
  assert (Hr : r = Raise (DatabaseError "duplicate key value violates unique constraint")).
  { apply (f_equal fst) in Hi. vm_compute in Hi. symmetry. exact Hi. }
  subst r. eexists _, w'. split; [reflexivity|].
  destruct (writes_are_all_or_nothing (float := Z) V3 mem0) as [_ Hins].
  exact (Hins _ _ _ _ _ _ Hi).
Defined.

Lemma create_col_again :
  create_col V3 mem0 (three_records V3)
  = (Return (), (create_col V3 mem0 (three_records V3)).2).
Proof.
  assert (H : (create_col V3 mem0 (three_records V3)).1 = Return ())
    by (vm_compute; reflexivity).
  destruct (create_col V3 mem0 (three_records V3)) as [r w']. cbn in *. by subst.
Defined.

Lemma create_col_keeps_rows_witness :
  ∃ t',
    tables (committed (create_col V3 mem0 (three_records V3)).2) !! "mem0" = Some t'
    ∧ tbl_rows t' = tbl_rows mem0_table.
Proof.
  destruct (create_col_keeps_rows V3 mem0 (three_records V3)
              (create_col V3 mem0 (three_records V3)).2 create_col_again)
    as (t' & H1 & H2 & _).
  exists t'. split; [exact H1|]. rewrite H2. vm_compute. reflexivity.
Defined.

Lemma list_cols_mem0 :
  list_cols V3 (three_records V3)
  = (Return ["mem0"], (list_cols V3 (three_records V3)).2).
Proof.
  assert (H : (list_cols V3 (three_records V3)).1 = Return ["mem0"])
    by (vm_compute; reflexivity).
  destruct (list_cols V3 (three_records V3)) as [r w']. cbn in *. by subst.
Defined.

Lemma init_provisions_once_witness :
  init V3 mem0 (three_records V3) = (Return (), (list_cols V3 (three_records V3)).2)
  ∧ committed (list_cols V3 (three_records V3)).2 = committed (three_records V3)
  ∧ issued (new_events (three_records V3) (list_cols V3 (three_records V3)).2)
    = [SELECT_tables].
Proof.
  destruct (init_provisions_once V3 mem0 (three_records V3) ["mem0"]
              (list_cols V3 (three_records V3)).2 list_cols_mem0) as [H _].
  apply H. left.
Defined.
